(** * lunacal-ghl-bridge: a shallow embedding of [server.js]

    The development embeds the webhook handler of the LunaCal -> GoHighLevel
    bridge and states the properties of its normalisation pipeline and of
    its orchestration. [server.js] holds three drafts of the service; the
    embedding follows the first one, which routes by organizer email,
    assigns a user and maps custom fields by cleaned-up label.

    Modelling conventions.
    - JavaScript strings are Rocq strings read as sequences of ASCII
      characters; case mapping, [\w], [\s] and [trim] are given on that
      range and leave every other character alone.
    - JavaScript numbers are the integers (type [Z]); only their truthiness
      and their decimal rendering are used by the program.
    - An object is the list of its own enumerable properties in the order
      [for ... in] visits them; property lookup takes the first binding.
    - Exceptions are explicit: a computation yields [Ok v] or [Throw e].
    - The CRM is an oracle answering each outbound request; the handler
      threads the list of requests issued so far. *)

From Stdlib Require Import ZArith Ascii String List Bool Lia DecimalString.
From stdpp Require Import base option gmap strings.

Set Warnings "-register-all".

Local Open Scope string_scope.
Local Open Scope Z_scope.
Local Open Scope list_scope.

(** ** Strings *)

Module Str.

Definition code (c : ascii) : nat := nat_of_ascii c.

(** White space as matched by [\s] and removed by [trim]. *)
Definition is_ws (c : ascii) : bool :=
  let n := code c in
  (Nat.eqb n 9 || Nat.eqb n 10 || Nat.eqb n 11 || Nat.eqb n 12
   || Nat.eqb n 13 || Nat.eqb n 32)%bool.

Definition is_upper (c : ascii) : bool :=
  (Nat.leb 65 (code c) && Nat.leb (code c) 90)%bool.

Definition is_lower (c : ascii) : bool :=
  (Nat.leb 97 (code c) && Nat.leb (code c) 122)%bool.

Definition is_digit (c : ascii) : bool :=
  (Nat.leb 48 (code c) && Nat.leb (code c) 57)%bool.

(** Word characters as matched by [\w]. *)
Definition is_word (c : ascii) : bool :=
  (is_upper c || is_lower c || is_digit c || Nat.eqb (code c) 95)%bool.

Definition lower_char (c : ascii) : ascii :=
  if is_upper c then ascii_of_nat (code c + 32) else c.

Definition upper_char (c : ascii) : ascii :=
  if is_lower c then ascii_of_nat (code c - 32) else c.

Fixpoint map (f : ascii -> ascii) (s : string) : string :=
  match s with
  | EmptyString => EmptyString
  | String c s' => String (f c) (map f s')
  end.

Fixpoint filter (p : ascii -> bool) (s : string) : string :=
  match s with
  | EmptyString => EmptyString
  | String c s' => if p c then String c (filter p s') else filter p s'
  end.

Definition toLowerCase : string -> string := map lower_char.
Definition toUpperCase : string -> string := map upper_char.

Fixpoint trimStart (s : string) : string :=
  match s with
  | EmptyString => EmptyString
  | String c s' => if is_ws c then trimStart s' else s
  end.

Fixpoint trimEnd (s : string) : string :=
  match s with
  | EmptyString => EmptyString
  | String c s' =>
      match trimEnd s' with
      | EmptyString => if is_ws c then EmptyString else String c EmptyString
      | t => String c t
      end
  end.

Definition trim (s : string) : string := trimEnd (trimStart s).

Fixpoint startsWith (s p : string) {struct p} : bool :=
  match p with
  | EmptyString => true
  | String a p' =>
      match s with
      | EmptyString => false
      | String b s' => (Ascii.eqb a b && startsWith s' p')%bool
      end
  end.

Fixpoint includes (s needle : string) : bool :=
  (startsWith s needle
   || match s with
      | EmptyString => false
      | String _ s' => includes s' needle
      end)%bool.

(** [s.replace(/[^\w\s]/g, '')] *)
Definition strip_punct : string -> string :=
  filter (fun c => (is_word c || is_ws c)%bool).

(** [s.replace(/\s+/g, ' ')]; [in_run] records that the previous character
    was white space, already replaced by the single blank. *)
Fixpoint collapse_from (in_run : bool) (s : string) : string :=
  match s with
  | EmptyString => EmptyString
  | String c s' =>
      if is_ws c
      then if in_run then collapse_from true s'
           else String " " (collapse_from true s')
      else String c (collapse_from false s')
  end.

Definition collapse_ws : string -> string := collapse_from false.

(** [s.split(sep)] for a one-character separator. *)
Fixpoint split (sep : ascii) (s : string) : list string :=
  match s with
  | EmptyString => [EmptyString]
  | String c s' =>
      if Ascii.eqb c sep then EmptyString :: split sep s'
      else match split sep s' with
           | h :: t => String c h :: t
           | [] => [String c EmptyString]
           end
  end.

Fixpoint join (sep : string) (l : list string) : string :=
  match l with
  | [] => EmptyString
  | [x] => x
  | x :: rest => x +:+ sep +:+ join sep rest
  end.

(** Decimal rendering of an integer, as [String(n)] gives it below
    [10^21]. *)
Definition of_Z (n : Z) : string := NilZero.string_of_int (Z.to_int n).

End Str.

(** ** JavaScript values *)

(** Built-in objects that data can only reach through the prototype chain
    of an object literal. *)
Inductive native : Type :=
| ObjectPrototype
| BuiltinFunction (name : string).

Inductive value : Type :=
| VUndef
| VNull
| VBool (b : bool)
| VNum (n : Z)
| VStr (s : string)
| VArr (xs : list value)
| VObj (props : list (string * value))
| VNative (f : native).

Inductive exn : Type :=
| TypeError (msg : string)
| GhlError (status : Z) (response : value)
| FetchError (msg : string).

Inductive result (A : Type) : Type :=
| Ok (a : A)
| Throw (e : exn).

Arguments Ok {A} a.
Arguments Throw {A} e.

Definition rbind {A B : Type} (r : result A) (k : A -> result B) : result B :=
  match r with
  | Ok a => k a
  | Throw e => Throw e
  end.

(** [try { body } catch { handler }] *)
Definition try_catch {A : Type} (body : result A) (handler : exn -> result A)
  : result A :=
  match body with
  | Ok a => Ok a
  | Throw e => handler e
  end.

#[global] Instance result_fmap : FMap result :=
  fun _ _ f r => rbind r (fun a => Ok (f a)).
#[global] Instance result_ret : MRet result := fun _ a => Ok a.
#[global] Instance result_bind : MBind result := fun _ _ k r => rbind r k.

(** [err.message] *)
Definition exn_message (e : exn) : string :=
  match e with
  | TypeError m => m
  | GhlError st _ => "GHL API error " +:+ Str.of_Z st
  | FetchError m => m
  end.

(** ToBoolean *)
Definition truthy (v : value) : bool :=
  match v with
  | VUndef | VNull => false
  | VBool b => b
  | VNum n => negb (n =? 0)
  | VStr s => negb (String.eqb s EmptyString)
  | VArr _ | VObj _ | VNative _ => true
  end.

(** [a || b] on already evaluated operands that have no effects. *)
Definition or_ (a b : value) : value := if truthy a then a else b.

Definition nullish (v : value) : bool :=
  match v with
  | VUndef | VNull => true
  | _ => false
  end.

Fixpoint own (props : list (string * value)) (k : string) : option value :=
  match props with
  | [] => None
  | (k', v) :: rest => if String.eqb k' k then Some v else own rest k
  end.

(** [v.k] for a value that is not null or undefined and a property name
    [k] that no built-in prototype defines; every field name the program
    reads through this function ([payload], [email], [label], ...) is
    such a name, so only own properties of objects can answer. *)
Definition member (v : value) (k : string) : value :=
  match v with
  | VObj props => default VUndef (own props k)
  | _ => VUndef
  end.

(** [v?.k] *)
Definition opt (v : value) (k : string) : value :=
  if nullish v then VUndef else member v k.

(** [v.k] *)
Definition get (v : value) (k : string) : result value :=
  if nullish v
  then Throw (TypeError ("Cannot read properties of null or undefined (reading '"
                         +:+ k +:+ "')"))
  else Ok (member v k).

(** [xs[0]] on an array. *)
Definition first_elem (v : value) : value :=
  match v with
  | VArr (x :: _) => x
  | _ => VUndef
  end.

Definition object_prototype_functions : list string :=
  ["hasOwnProperty"; "isPrototypeOf"; "propertyIsEnumerable";
   "toLocaleString"; "toString"; "valueOf"; "__defineGetter__";
   "__defineSetter__"; "__lookupGetter__"; "__lookupSetter__"].

(** [o[k]] for an object literal [o] and an arbitrary computed key: own
    properties first, then the members of [Object.prototype]. *)
Definition literal_get (props : list (string * value)) (k : string) : value :=
  match own props k with
  | Some v => v
  | None =>
      if String.eqb k "constructor" then VNative (BuiltinFunction "Object")
      else if String.eqb k "__proto__" then VNative ObjectPrototype
      else if existsb (String.eqb k) object_prototype_functions
           then VNative (BuiltinFunction k)
      else VUndef
  end.

Definition has_own (props : list (string * value)) (k : string) : bool :=
  match own props k with
  | Some _ => true
  | None => false
  end.

(** [String(v)] (also the conversion done by a template literal). An
    array joins its elements with commas, null and undefined elements
    giving the empty string. An object built from JSON data has no callable
    own [toString]: when it has an own property of that name the conversion
    finds no primitive and throws, otherwise [Object.prototype.toString]
    answers. *)
Fixpoint toString (v : value) : result string :=
  match v with
  | VUndef => Ok "undefined"
  | VNull => Ok "null"
  | VBool true => Ok "true"
  | VBool false => Ok "false"
  | VNum n => Ok (Str.of_Z n)
  | VStr s => Ok s
  | VArr xs =>
      let fix elems (l : list value) : result (list string) :=
        match l with
        | [] => Ok []
        | x :: rest =>
            match (if nullish x then Ok EmptyString else toString x) with
            | Ok s =>
                match elems rest with
                | Ok ss => Ok (s :: ss)
                | Throw e => Throw e
                end
            | Throw e => Throw e
            end
        end in
      match elems xs with
      | Ok ss => Ok (Str.join "," ss)
      | Throw e => Throw e
      end
  | VObj props =>
      if has_own props "toString"
      then Throw (TypeError "Cannot convert object to primitive value")
      else Ok "[object Object]"
  | VNative ObjectPrototype => Ok "[object Object]"
  | VNative (BuiltinFunction name) =>
      Ok ("function " +:+ name +:+ "() { [native code] }")
  end.

(** Receiver of a string method call such as [x.trim()]: anything but a
    string has no callable property of that name. *)
Definition as_string (v : value) (method : string) : result string :=
  match v with
  | VStr s => Ok s
  | _ =>
      if nullish v
      then Throw (TypeError ("Cannot read properties of null or undefined (reading '"
                             +:+ method +:+ "')"))
      else Throw (TypeError (method +:+ " is not a function"))
  end.

(** The own enumerable property values of [v] in [for ... in] order, each
    being what [v[key]] reads for the key visited. *)
Definition enum_values (v : value) : list value :=
  match v with
  | VObj props => List.map snd props
  | VArr xs => xs
  | VStr s => List.map (fun c => VStr (String c EmptyString)) (list_ascii_of_string s)
  | _ => []
  end.

(** Canonical array index: the decimal numeral of an integer below
    [2^32 - 1], which orders before every other property name. *)
Definition array_index (k : string) : option Z :=
  match NilZero.uint_of_string k with
  | Some u =>
      let n := Z.of_N (N.of_uint u) in
      if (String.eqb (Str.of_Z n) k && (n <? 4294967295))%bool then Some n else None
  | None => None
  end.

Fixpoint replace_own (props : list (string * value)) (k : string) (v : value)
  : list (string * value) :=
  match props with
  | [] => []
  | (k', v') :: rest =>
      if String.eqb k' k then (k', v) :: rest else (k', v') :: replace_own rest k v
  end.

Fixpoint insert_index (props : list (string * value)) (i : Z) (k : string) (v : value)
  : list (string * value) :=
  match props with
  | [] => [(k, v)]
  | (k', v') :: rest =>
      match array_index k' with
      | Some j => if j <? i then (k', v') :: insert_index rest i k v
                  else (k, v) :: props
      | None => (k, v) :: props
      end
  end.

(** [o[k] = v] on an ordinary object whose prototype is [Object.prototype]:
    the name [__proto__] is an accessor of the prototype and creates no own
    property; an existing property keeps its place; a new one goes among
    the array indices in ascending order or after all other names. An
    object whose prototype an earlier assignment to [__proto__] has set to
    null is outside this model. *)
Definition obj_set (props : list (string * value)) (k : string) (v : value)
  : list (string * value) :=
  if String.eqb k "__proto__" then props
  else if has_own props k then replace_own props k v
  else match array_index k with
       | Some i => insert_index props i k v
       | None => props ++ [(k, v)]
       end.

(** ** Configuration *)

(** The environment variables the server reads, [GHL_API_VERSION],
    [CALENDAR_MAPPING] and [CUSTOM_FIELD_MAPPING] after their defaults. *)
Record env : Type := {
  GHL_PRIVATE_TOKEN : option string;
  GHL_LOCATION_ID : option string;
  GHL_API_VERSION : string;
  GHL_CALENDAR_ID : option string;
  CALENDAR_MAPPING : string;
  CUSTOM_FIELD_MAPPING : string
}.

Definition env_value (o : option string) : value :=
  match o with
  | Some s => VStr s
  | None => VUndef
  end.

Record CalendarRoute : Type := { calId : string; userId : option string }.

Definition nonempty (s : string) : bool := negb (String.eqb s EmptyString).

(** One [email:calendarId:userId] item of [CALENDAR_MAPPING]. *)
Definition calendarMap_item (m : gmap string CalendarRoute) (item : string)
  : gmap string CalendarRoute :=
  let parts := Str.split ":" item in
  let email := Str.toLowerCase (Str.trim (List.hd EmptyString parts)) in
  match Str.trim <$> (parts !! 1%nat) with
  | Some c =>
      if (nonempty email && nonempty c)%bool
      then <[email := {| calId := c; userId := Str.trim <$> (parts !! 2%nat) |}]> m
      else m
  | None => m
  end.

Definition calendarMap (e : env) : gmap string CalendarRoute :=
  if nonempty (CALENDAR_MAPPING e)
  then fold_left calendarMap_item (Str.split "," (CALENDAR_MAPPING e)) ∅
  else ∅.

(** [Map.prototype.set] on a map kept as its entries in insertion order. *)
Fixpoint map_set (m : list (string * string)) (k v : string) : list (string * string) :=
  match m with
  | [] => [(k, v)]
  | (k', v') :: rest =>
      if String.eqb k' k then (k', v) :: rest else (k', v') :: map_set rest k v
  end.

Definition fieldMap_item (m : list (string * string)) (item : string)
  : list (string * string) :=
  match Str.split ":" item with
  | label :: key :: _ =>
      if (nonempty label && nonempty key)%bool
      then map_set m (Str.toLowerCase (Str.trim label)) (Str.trim key)
      else m
  | _ => m
  end.

Definition fieldMap (e : env) : list (string * string) :=
  if nonempty (CUSTOM_FIELD_MAPPING e)
  then fold_left fieldMap_item (Str.split "," (CUSTOM_FIELD_MAPPING e)) []
  else [].

(** ** Helpers *)

Record Attendee : Type := { name : value; email : value; phone : value }.

Definition unknown_attendee : Attendee :=
  {| name := VStr "Unknown"; email := VNull; phone := VNull |}.

Definition extractAttendee (payload : value) : result Attendee :=
  try_catch
    (attendee ←
       match opt payload "attendees" with
       | VArr _ => first_elem <$> get payload "attendees"
       | _ => Ok VNull
       end;
     let chain (field : string) (dflt : value) : value :=
       or_ (opt attendee field)
         (or_ (opt (opt (opt payload "responses") field) "value")
            (or_ (opt (opt payload "invitee") field)
               (or_ (opt payload field) dflt))) in
     Ok {| name := chain "name" (VStr "Unknown");
           email := chain "email" VNull;
           phone := chain "phone" VNull |})
    (fun _ => Ok unknown_attendee).

Definition roleOptions : list (string * value) :=
  [("ceo / founder", VStr "CEO / Founder");
   ("ceo/founder", VStr "CEO / Founder");
   ("chief marketing officer", VStr "Chief Marketing Officer");
   ("seo director", VStr "SEO Director");
   ("seo manager", VStr "SEO Manager");
   ("marketing manager", VStr "Marketing Manager");
   ("other", VStr "Other")].

Definition budgetOptions : list (string * value) :=
  [("less than $5,000", VStr "Less than $5,000");
   ("less than $5000", VStr "Less than $5,000");
   ("between $5,000 - $10,000", VStr "Between $5,000 - $10,000");
   ("between $5000 - $10000", VStr "Between $5,000 - $10,000");
   ("more than $10,000", VStr "More than $10,000");
   ("more than $10000", VStr "More than $10,000")].

Definition normalizeDropdownValue (v : value) : result value :=
  if negb (truthy v) then Ok v
  else
    s ← toString v;
    let val := Str.trim s in
    let normalized := Str.toLowerCase val in
    if truthy (literal_get roleOptions normalized)
    then Ok (literal_get roleOptions normalized)
    else if truthy (literal_get budgetOptions normalized)
    then Ok (literal_get budgetOptions normalized)
    else Ok (VStr val).

(** [.trim().toLowerCase().replace(/[^\w\s]/g, '').replace(/\s+/g, ' ')],
    the clean-up applied to both labels before they are compared. *)
Definition normalizeLabel (s : string) : string :=
  Str.collapse_ws (Str.strip_punct (Str.toLowerCase (Str.trim s))).

(** The inner loop of [extractCustomFields] over the entries still to be
    visited: [Some v] is the value to store at the first match. *)
Fixpoint scan_responses (targetLabel : string) (entries : list value)
  : result (option value) :=
  match entries with
  | [] => Ok None
  | entry :: rest =>
      label ← as_string (or_ (opt entry "label") (VStr EmptyString)) "trim";
      if String.eqb (normalizeLabel label) (normalizeLabel targetLabel)
      then
        rawValue ← get entry "value";
        finalValue ← normalizeDropdownValue rawValue;
        (* the log line interpolates both values *)
        _ ← toString rawValue;
        _ ← toString finalValue;
        Ok (Some finalValue)
      else scan_responses targetLabel rest
  end.

(** The outer loop over the entries of [fieldMap]. *)
Fixpoint map_fields (fm : list (string * string)) (responses : value)
  (fields : list (string * value)) : result (list (string * value)) :=
  match fm with
  | [] => Ok fields
  | (targetLabel, ghlKey) :: rest =>
      found ← scan_responses targetLabel (enum_values responses);
      map_fields rest responses
        (match found with
         | Some finalValue => obj_set fields ghlKey finalValue
         | None => fields
         end)
  end.

Definition extractCustomFields (e : env) (payload : value)
  : result (list (string * value)) :=
  map_fields (fieldMap e) (or_ (opt payload "responses") (VObj [])) [].

(** ** The CRM gateway and the webhook route *)

(** An outbound call as [fetch] receives it; [sent] is the object that is
    serialised into the request body. *)
Record outbound : Type := {
  url : string;
  method : string;
  authorization : string;
  version : string;
  sent : value
}.

(** What [fetch] followed by [res.text()] yields: a response with its
    status and body text, or a rejection. *)
Inductive fetch_outcome : Type :=
| Responded (status : Z) (text : string)
| Rejected (msg : string).

(** What [res.status(...).json(...)] sends back to the caller. *)
Record response : Type := { status : Z; json : value }.

(** Computations that may call the CRM: the calls issued so far are
    threaded through, and survive an exception. *)
Definition M (A : Type) : Type := list outbound -> result A * list outbound.

#[global] Instance M_ret : MRet M := fun _ a tr => (Ok a, tr).
#[global] Instance M_bind : MBind M := fun _ _ k c tr =>
  match c tr with
  | (Ok a, tr') => k a tr'
  | (Throw e, tr') => (Throw e, tr')
  end.

Definition lift {A : Type} (r : result A) : M A := fun tr => (r, tr).

(** A template literal over an environment variable. *)
Definition interpolate (o : option string) : string :=
  match o with
  | Some s => s
  | None => "undefined"
  end.

(** [res.ok] *)
Definition ok_status (st : Z) : bool := ((200 <=? st) && (st <=? 299))%bool.

Definition correctOrganizerEmail (organizerEmail : string) : string :=
  if Str.includes organizerEmail "suraj.kumar@digitalwebsolutions"
  then "suraj.kumar@digitalwebsolutions.in"
  else organizerEmail.

(** [payload?.organizer?.email?.toLowerCase() || ''] *)
Definition organizerEmailOf (payload : value) : result string :=
  let raw := opt (opt payload "organizer") "email" in
  if nullish raw then Ok EmptyString
  else Str.toLowerCase <$> as_string raw "toLowerCase".

(** The routing step of the route handler: the target calendar id and
    the target user id for an organizer email already lower-cased. *)
Definition resolveRoute (e : env) (organizerEmail : string) : value * value :=
  let organizerEmail := correctOrganizerEmail organizerEmail in
  let fallback := (env_value (GHL_CALENDAR_ID e), VNull) in
  if nonempty organizerEmail
  then match calendarMap e !! organizerEmail with
       | Some mapping => (VStr (calId mapping), env_value (userId mapping))
       | None => fallback
       end
  else fallback.

(** The request [ghlRequest] hands to [fetch]. *)
Definition ghlCall (e : env) (path method : string) (body : value) : outbound :=
  {| url := "https://services.leadconnectorhq.com" +:+ path;
     method := method;
     authorization := "Bearer " +:+ interpolate (GHL_PRIVATE_TOKEN e);
     version := GHL_API_VERSION e;
     sent := body |}.

(** What the route handler has in hand when it validates. *)
Record extraction : Type := {
  x_startTime : value;
  x_endTime : value;
  x_title : string;
  x_attendee : Attendee;
  x_customFields : list (string * value);
  x_calendarId : value;
  x_userId : value
}.

(** [!email || !startTime || !endTime || !targetCalendarId] *)
Definition missing_required (x : extraction) : bool :=
  (negb (truthy (email (x_attendee x))) || negb (truthy (x_startTime x))
   || negb (truthy (x_endTime x)) || negb (truthy (x_calendarId x)))%bool.

Definition customFieldEntry (kv : string * value) : value :=
  let (key, v) := kv in
  if Str.startsWith key "contact."
  then VObj [("key", VStr key); ("value", v)]
  else VObj [("id", VStr key); ("value", v)].

(** The object literal [body] of [upsertContact]. *)
Definition upsertBody (e : env) (a : Attendee) (customFields : list (string * value))
  : result value :=
  nm ← toString (or_ (name a) (VStr "Unknown"));
  em ← toString (or_ (email a) (VStr EmptyString));
  ph ← (if truthy (phone a)
        then (λ s, [("phone", VStr s)]) <$> toString (phone a)
        else Ok []);
  Ok (VObj ([("locationId", env_value (GHL_LOCATION_ID e));
             ("name", VStr nm);
             ("email", VStr em)]
            ++ ph
            ++ [("customFields", VArr (List.map customFieldEntry customFields))])).

(** [resp?.contact?.id || resp?.contactId || resp?.id || null] *)
Definition contactIdOf (resp : value) : value :=
  or_ (opt (opt resp "contact") "id")
    (or_ (opt resp "contactId") (or_ (opt resp "id") VNull)).

(** The object literal [body] of [createAppointment]. *)
Definition appointmentBody (e : env)
  (contactId startTime endTime title calendarId assignedUserId : value) : result value :=
  cid ← toString contactId;
  ttl ← toString (or_ title (VStr "LunaCal Booking"));
  st ← toString startTime;
  en ← toString endTime;
  Ok (VObj ([("locationId", env_value (GHL_LOCATION_ID e));
             ("calendarId", calendarId);
             ("contactId", VStr cid);
             ("title", VStr ttl);
             ("startTime", VStr st);
             ("endTime", VStr en);
             ("ignoreFreeSlotValidation", VBool true)]
            ++ (if truthy assignedUserId
                then [("assignedUserId", assignedUserId)] else []))).

Section Bridge.

(** [JSON.parse]: the parsed value, or [None] when it throws. *)
Variable JSON_parse : string -> option value.

(** [new Date(v).toISOString()] when [new Date(v)] is a valid date. *)
Variable Date_toISOString : value -> option string.

(** The CRM: its answer to a call, given the calls that came before. *)
Variable fetch : list outbound -> outbound -> fetch_outcome.

(** [let data = {}; try { data = JSON.parse(text); } catch { data = { raw: text }; }] *)
Definition parsedBody (text : string) : value :=
  match JSON_parse text with
  | Some v => v
  | None => VObj [("raw", VStr text)]
  end.

Definition normalizeTime (v : value) : value :=
  if negb (truthy v) then VNull
  else match Date_toISOString v with
       | Some iso => VStr iso
       | None => VNull
       end.

Definition ghlRequest (e : env) (path method : string) (body : value) : M value :=
  fun tr =>
    let call := ghlCall e path method body in
    match fetch tr call with
    | Rejected msg => (Throw (FetchError msg), tr ++ [call])
    | Responded st text =>
        let data := parsedBody text in
        if ok_status st then (Ok data, tr ++ [call])
        else (Throw (GhlError st data), tr ++ [call])
    end.

Definition upsertContact (e : env) (a : Attendee) (customFields : list (string * value))
  : M value :=
  body ← lift (upsertBody e a customFields);
  resp ← ghlRequest e "/contacts/upsert" "POST" body;
  let contactId := contactIdOf resp in
  (* the log line interpolates the contact id *)
  _ ← lift (toString contactId);
  mret contactId.

Definition createAppointment (e : env)
  (contactId startTime endTime title calendarId assignedUserId : value) : M value :=
  body ← lift (appointmentBody e contactId startTime endTime title calendarId
                 assignedUserId);
  ghlRequest e "/calendars/events/appointments" "POST" body.

Definition configured (e : env) : bool :=
  (truthy (env_value (GHL_PRIVATE_TOKEN e)) && truthy (env_value (GHL_LOCATION_ID e)))%bool.

(** [String(data?.triggerEvent || data?.event || data?.type || '')] for
    [data = req.body || {}]. *)
Definition triggerEventOf (body : value) : result string :=
  let data := or_ body (VObj []) in
  toString (or_ (opt data "triggerEvent")
              (or_ (opt data "event") (or_ (opt data "type") (VStr EmptyString)))).

(** [data?.payload || data] *)
Definition payloadOf (body : value) : value :=
  let data := or_ body (VObj []) in
  or_ (opt data "payload") data.

Definition is_ping (triggerEvent : string) : bool :=
  Str.includes (Str.toUpperCase triggerEvent) "PING".

Definition reply (st : Z) (fields : list (string * value)) : response :=
  {| status := st; json := VObj fields |}.

(** The extraction and routing steps of the route handler, from the
    time normalisation to the calendar match. *)
Definition extract_all (e : env) (payload : value) : result extraction :=
  let startTime := normalizeTime (or_ (opt payload "startTime") (opt payload "start")) in
  let endTime := normalizeTime (or_ (opt payload "endTime") (opt payload "end")) in
  title ← toString (or_ (opt payload "eventTitle")
                      (or_ (opt payload "title") (VStr "LunaCal Booking")));
  a ← extractAttendee payload;
  customFields ← extractCustomFields e payload;
  organizerEmail ← organizerEmailOf payload;
  let (targetCalendarId, targetUserId) := resolveRoute e organizerEmail in
  Ok {| x_startTime := startTime; x_endTime := endTime; x_title := title;
        x_attendee := a; x_customFields := customFields;
        x_calendarId := targetCalendarId; x_userId := targetUserId |}.

(** The body of the [try] block of [POST /webhooks/lunacal]. *)
Definition lunacal_try (e : env) (body : value) : M response :=
  if negb (configured e)
  then mret (reply 500 [("ok", VBool false); ("message", VStr "Missing GHL configuration")])
  else
    triggerEvent ← lift (triggerEventOf body);
    let payload := payloadOf body in
    if is_ping triggerEvent
    then mret (reply 200 [("ok", VBool true); ("message", VStr "Received PING.")])
    else
      x ← lift (extract_all e payload);
      if missing_required x
      then mret (reply 400 [("ok", VBool false);
                            ("message", VStr "Missing required fields")])
      else
        contactId ← upsertContact e (x_attendee x) (x_customFields x);
        appointment ← createAppointment e contactId (x_startTime x) (x_endTime x)
                        (VStr (x_title x)) (x_calendarId x) (x_userId x);
        mret (reply 200 [("ok", VBool true);
                         ("message", VStr "Synced to GoHighLevel");
                         ("contactId", contactId);
                         ("appointmentId", opt appointment "id")]).

(** [POST /webhooks/lunacal]: the response sent and the CRM calls made. *)
Definition lunacal (e : env) (body : value) : response * list outbound :=
  match lunacal_try e body [] with
  | (Ok r, calls) => (r, calls)
  | (Throw err, calls) =>
      (reply 500 [("ok", VBool false); ("message", VStr (exn_message err))], calls)
  end.

End Bridge.

(** * Specification-side notions *)

(** [n] occurs somewhere inside [s]. *)
Definition occurs_in (n s : string) : Prop :=
  ∃ pre post : string, s = pre +:+ n +:+ post.

(** What the route handler does once the organizer email is corrected. *)
Definition lookupRoute (e : env) (key : string) : value * value :=
  match calendarMap e !! key with
  | Some mapping => (VStr (calId mapping), env_value (userId mapping))
  | None => (env_value (GHL_CALENDAR_ID e), VNull)
  end.

(** The domain correction in the words of the specification: the one
    misformatted address, recognised by the text it contains, is rewritten
    to its canonical form, and every other address is kept. *)
Definition corrected_to (addr key : string) : Prop :=
  (occurs_in "suraj.kumar@digitalwebsolutions" addr
   ∧ key = "suraj.kumar@digitalwebsolutions.in")
  ∨ (¬ occurs_in "suraj.kumar@digitalwebsolutions" addr ∧ key = addr).

(** [n] occurs in [s] up to the case of letters. *)
Definition occurs_in_ignoring_case (n s : string) : Prop :=
  ∃ pre u post : string,
    s = pre +:+ u +:+ post ∧ Str.toUpperCase u = Str.toUpperCase n.

(** The element the attendee chain starts from: the first element of
    [attendees] when that is a list. *)
Definition first_attendee (payload : value) : value :=
  match opt payload "attendees" with
  | VArr xs => first_elem (VArr xs)
  | _ => VNull
  end.

(** The four places a field of the attendee may come from, in order. *)
Definition sources (payload : value) (field : string) : list value :=
  [opt (first_attendee payload) field;
   opt (opt (opt payload "responses") field) "value";
   opt (opt payload "invitee") field;
   opt payload field].

Fixpoint first_truthy (l : list value) (dflt : value) : value :=
  match l with
  | [] => dflt
  | v :: rest => if truthy v then v else first_truthy rest dflt
  end.

(** The first value that is not [undefined]. *)
Fixpoint first_defined (l : list value) (dflt : value) : value :=
  match l with
  | [] => dflt
  | VUndef :: rest => first_defined rest dflt
  | v :: _ => v
  end.

(** Some character of [s] is an upper-case letter. *)
Fixpoint has_upper (s : string) : bool :=
  match s with
  | EmptyString => false
  | String c s' => (Str.is_upper c || has_upper s')%bool
  end.

(** The label clean-up as the specification words it: strip what is
    neither a word character nor white space, lower-case, collapse runs of
    white space. *)
Definition spec_label_form (s : string) : string :=
  Str.collapse_ws (Str.toLowerCase (Str.strip_punct s)).

(** What an entry offers as its label: [entry?.label || '']. *)
Definition label_of (entry : value) : value :=
  or_ (opt entry "label") (VStr EmptyString).

(** The entry carries a text label that cleans up to something else than
    the target does. *)
Definition passes_over (targetLabel : string) (entry : value) : Prop :=
  ∃ l : string, label_of entry = VStr l ∧ normalizeLabel l ≠ normalizeLabel targetLabel.

(** Every value of the table is a non-empty text. *)
Definition text_valued (props : list (string * value)) : Prop :=
  Forall (λ kv, ∃ c : string, kv.2 = VStr c ∧ c ≠ EmptyString) props.

(** * Fixtures *)

(** A [JSON.parse] that knows the empty object and rejects everything
    else it is asked about here. *)
Definition parse_braces (text : string) : option value :=
  if String.eqb text "{}" then Some (VObj []) else None.

(** [new Date(v).toISOString()] on the two instants of the sample booking. *)
Definition sample_dates (v : value) : option string :=
  match v with
  | VStr s =>
      if String.eqb s "2024-01-01T10:00:00Z" then Some "2024-01-01T10:00:00.000Z"
      else if String.eqb s "2024-01-01T10:30:00Z" then Some "2024-01-01T10:30:00.000Z"
      else None
  | _ => None
  end.

(** A CRM that accepts every call and answers with an empty object. *)
Definition crm_empty_object (_ : list outbound) (_ : outbound) : fetch_outcome :=
  Responded 200 "{}".

(** A CRM answering 404 with a body that is not JSON. *)
Definition crm_not_found (_ : list outbound) (_ : outbound) : fetch_outcome :=
  Responded 404 "not found".

Definition env_sample : env :=
  {| GHL_PRIVATE_TOKEN := Some "token";
     GHL_LOCATION_ID := Some "loc_1";
     GHL_API_VERSION := "2021-07-28";
     GHL_CALENDAR_ID := Some "cal_default";
     CALENDAR_MAPPING := "jane@acme.com:cal_1:user_7";
     CUSTOM_FIELD_MAPPING := "What's your role:contact.role" |}.

Definition env_no_credentials : env :=
  {| GHL_PRIVATE_TOKEN := None;
     GHL_LOCATION_ID := None;
     GHL_API_VERSION := "2021-07-28";
     GHL_CALENDAR_ID := Some "cal_default";
     CALENDAR_MAPPING := EmptyString;
     CUSTOM_FIELD_MAPPING := EmptyString |}.

(** A configuration that routes the canonical address of the corrected
    organizer. *)
Definition env_suraj : env :=
  {| GHL_PRIVATE_TOKEN := Some "token";
     GHL_LOCATION_ID := Some "loc_1";
     GHL_API_VERSION := "2021-07-28";
     GHL_CALENDAR_ID := Some "cal_default";
     CALENDAR_MAPPING := "suraj.kumar@digitalwebsolutions.in:cal_s:user_s";
     CUSTOM_FIELD_MAPPING := EmptyString |}.

(** A booking organised from the misformatted address. *)
Definition suraj_payload : value :=
  VObj [("organizer", VObj [("email", VStr "Suraj.Kumar@DigitalWebSolutions.com")])].

(** The booking of the end-to-end scenario. *)
Definition booking_payload : value :=
  VObj [("startTime", VStr "2024-01-01T10:00:00Z");
        ("endTime", VStr "2024-01-01T10:30:00Z");
        ("attendees", VArr [VObj [("name", VStr "Jo"); ("email", VStr "jo@x.com")]]);
        ("organizer", VObj [("email", VStr "Jane@Acme.com")])].

Definition booking_body : value :=
  VObj [("triggerEvent", VStr "BOOKING.CREATED"); ("payload", booking_payload)].

(** A liveness probe: no attendee, no times. *)
Definition ping_body : value := VObj [("triggerEvent", VStr "ping")].

(** An attendee entry with an empty email next to a top-level email. *)
Definition payload_empty_attendee_email : value :=
  VObj [("attendees", VArr [VObj [("email", VStr EmptyString)]]);
        ("email", VStr "jo@x.com")].

(** A response entry whose label is a number. *)
Definition payload_numeric_label : value :=
  VObj [("responses", VObj [("q1", VObj [("label", VNum 5); ("value", VStr "x")])])].

(** The booking with such an entry among its responses. *)
Definition booking_numeric_label : value :=
  VObj [("triggerEvent", VStr "BOOKING.CREATED");
        ("payload",
         VObj [("startTime", VStr "2024-01-01T10:00:00Z");
               ("endTime", VStr "2024-01-01T10:30:00Z");
               ("attendees", VArr [VObj [("name", VStr "Jo"); ("email", VStr "jo@x.com")]]);
               ("responses", VObj [("q1", VObj [("label", VNum 5); ("value", VStr "x")])])])].

(** The booking without any attendee information. *)
Definition booking_without_email : value :=
  VObj [("triggerEvent", VStr "BOOKING.CREATED");
        ("payload",
         VObj [("startTime", VStr "2024-01-01T10:00:00Z");
               ("endTime", VStr "2024-01-01T10:30:00Z");
               ("organizer", VObj [("email", VStr "Jane@Acme.com")])])].

(** Two response entries labelled with a blank before the question mark
    and with a trailing blank. *)
Definition payload_role_spaced_mark : value :=
  VObj [("responses",
         VObj [("q1", VObj [("label", VStr "What's your role ?");
                            ("value", VStr "Other")])])].

Definition payload_role_trailing_blank : value :=
  VObj [("responses",
         VObj [("q1", VObj [("label", VStr "What's your role ");
                            ("value", VStr "Other")])])].

(** Payloads whose only response entry carries the given label. *)
Definition payload_with_label (l : string) : value :=
  VObj [("responses",
         VObj [("q1", VObj [("label", VStr l); ("value", VStr "ceo/founder")])])].

(** A booking without attendee information whose organizer email is a
    number. *)
Definition booking_numeric_organizer : value :=
  VObj [("triggerEvent", VStr "BOOKING.CREATED");
        ("payload",
         VObj [("startTime", VStr "2024-01-01T10:00:00Z");
               ("endTime", VStr "2024-01-01T10:30:00Z");
               ("organizer", VObj [("email", VNum 5)])])].

(** * Further notions used by the properties of the configuration *)

(** The character [c] occurs in [s]. *)
Fixpoint has_char (c : ascii) (s : string) : bool :=
  match s with
  | EmptyString => false
  | String d s' => (Ascii.eqb d c || has_char c s')%bool
  end.

(** A configuration field: free of the two separators. *)
Definition plain_field (s : string) : bool :=
  (negb (has_char "," s) && negb (has_char ":" s))%bool.

(** What a cleaned-up label may consist of: lower-case letters, digits,
    underscores and blanks. *)
Definition label_char (c : ascii) : bool :=
  (Str.is_lower c || Str.is_digit c || Ascii.eqb c "_" || Ascii.eqb c " ")%bool.

Fixpoint all_chars (p : ascii → bool) (s : string) : bool :=
  match s with
  | EmptyString => true
  | String c s' => (p c && all_chars p s')%bool
  end.

(** No two blanks in a row. *)
Fixpoint single_blanks (s : string) : bool :=
  match s with
  | String a ((String b _) as s') =>
      (negb (Ascii.eqb a " " && Ascii.eqb b " ") && single_blanks s')%bool
  | _ => true
  end.

(** What the construction of the calendar-route map guarantees of an
    entry. *)
Definition normalised_route (k : string) (r : CalendarRoute) : Prop :=
  k ≠ EmptyString ∧ Str.toLowerCase k = k ∧ Str.trim k = k
  ∧ calId r ≠ EmptyString ∧ Str.trim (calId r) = calId r
  ∧ ∀ u : string, userId r = Some u → Str.trim u = u.

(** What the construction of the field map guarantees of an entry. *)
Definition normalised_field (kv : string * string) : Prop :=
  Str.toLowerCase kv.1 = kv.1 ∧ Str.trim kv.1 = kv.1 ∧ Str.trim kv.2 = kv.2.

(** Neither upper-case nor punctuation. *)
Definition stripped_char (c : ascii) : bool :=
  (negb (Str.is_upper c) && (Str.is_word c || Str.is_ws c))%bool.

Definition starts_blank (s : string) : bool :=
  match s with
  | String c _ => Ascii.eqb c " "
  | EmptyString => false
  end.

(** * The ways a request can end *)

Section Outcomes.

Variable JSON_parse : string → option value.
Variable Date_toISOString : value → option string.
Variable fetch : list outbound → outbound → fetch_outcome.

(** The response sent and the CRM calls made, by the step at which the
    route handler stops. *)
Inductive lunacal_outcome (e : env) (body : value) : response → list outbound → Prop :=
| out_unconfigured :
    configured e = false →
    lunacal_outcome e body
      (reply 500 [("ok", VBool false); ("message", VStr "Missing GHL configuration")]) []
| out_threw_before_crm (err : exn) :
    configured e = true →
    lunacal_outcome e body
      (reply 500 [("ok", VBool false); ("message", VStr (exn_message err))]) []
| out_ping (t : string) :
    configured e = true → triggerEventOf body = Ok t → is_ping t = true →
    lunacal_outcome e body
      (reply 200 [("ok", VBool true); ("message", VStr "Received PING.")]) []
| out_missing (t : string) (x : extraction) :
    configured e = true → triggerEventOf body = Ok t → is_ping t = false →
    extract_all Date_toISOString e (payloadOf body) = Ok x →
    missing_required x = true →
    lunacal_outcome e body
      (reply 400 [("ok", VBool false); ("message", VStr "Missing required fields")]) []
| out_upsert_failed (x : extraction) (upsert : value) (err : exn) :
    extract_all Date_toISOString e (payloadOf body) = Ok x →
    missing_required x = false →
    upsertBody e (x_attendee x) (x_customFields x) = Ok upsert →
    lunacal_outcome e body
      (reply 500 [("ok", VBool false); ("message", VStr (exn_message err))])
      [ghlCall e "/contacts/upsert" "POST" upsert]
| out_appointment_failed (x : extraction) (upsert appointment : value)
    (st : Z) (text : string) (err : exn) :
    extract_all Date_toISOString e (payloadOf body) = Ok x →
    missing_required x = false →
    upsertBody e (x_attendee x) (x_customFields x) = Ok upsert →
    fetch [] (ghlCall e "/contacts/upsert" "POST" upsert) = Responded st text →
    ok_status st = true →
    appointmentBody e (contactIdOf (parsedBody JSON_parse text)) (x_startTime x)
      (x_endTime x) (VStr (x_title x)) (x_calendarId x) (x_userId x) = Ok appointment →
    lunacal_outcome e body
      (reply 500 [("ok", VBool false); ("message", VStr (exn_message err))])
      [ghlCall e "/contacts/upsert" "POST" upsert;
       ghlCall e "/calendars/events/appointments" "POST" appointment]
| out_synced (x : extraction) (upsert appointment : value)
    (st1 st2 : Z) (text1 text2 : string) :
    configured e = true →
    extract_all Date_toISOString e (payloadOf body) = Ok x →
    missing_required x = false →
    upsertBody e (x_attendee x) (x_customFields x) = Ok upsert →
    fetch [] (ghlCall e "/contacts/upsert" "POST" upsert) = Responded st1 text1 →
    ok_status st1 = true →
    appointmentBody e (contactIdOf (parsedBody JSON_parse text1)) (x_startTime x)
      (x_endTime x) (VStr (x_title x)) (x_calendarId x) (x_userId x) = Ok appointment →
    fetch [ghlCall e "/contacts/upsert" "POST" upsert]
      (ghlCall e "/calendars/events/appointments" "POST" appointment)
    = Responded st2 text2 →
    ok_status st2 = true →
    lunacal_outcome e body
      (reply 200 [("ok", VBool true);
                  ("message", VStr "Synced to GoHighLevel");
                  ("contactId", contactIdOf (parsedBody JSON_parse text1));
                  ("appointmentId", opt (parsedBody JSON_parse text2) "id")])
      [ghlCall e "/contacts/upsert" "POST" upsert;
       ghlCall e "/calendars/events/appointments" "POST" appointment].

End Outcomes.

(** The quotation mark, and the JSON text of an object with one text
    property. *)
Definition quote : string := String (ascii_of_nat 34) EmptyString.

Definition json_pair (k v : string) : string :=
  "{" +:+ quote +:+ k +:+ quote +:+ ":" +:+ quote +:+ v +:+ quote +:+ "}".

(** A [JSON.parse] for the two answers of the CRM below and for the
    empty object. *)
Definition parse_ids (text : string) : option value :=
  if String.eqb text (json_pair "id" "c_1") then Some (VObj [("id", VStr "c_1")])
  else if String.eqb text (json_pair "id" "a_9") then Some (VObj [("id", VStr "a_9")])
  else if String.eqb text "{}" then Some (VObj [])
  else None.

(** A CRM that hands out a contact id and an appointment id. *)
Definition crm_with_ids (tr : list outbound) (_ : outbound) : fetch_outcome :=
  match tr with
  | [] => Responded 200 (json_pair "id" "c_1")
  | _ => Responded 201 (json_pair "id" "a_9")
  end.

(** A CRM that rejects the upsert with 422. *)
Definition crm_unprocessable (_ : list outbound) (_ : outbound) : fetch_outcome :=
  Responded 422 "{}".

(** A CRM that accepts the upsert and answers the appointment with 400. *)
Definition crm_rejects_appointment (tr : list outbound) (_ : outbound) : fetch_outcome :=
  match tr with
  | [] => Responded 200 (json_pair "id" "c_1")
  | _ => Responded 400 "{}"
  end.

(** The two endpoints of the CRM. *)
Definition upsert_url : string := "https://services.leadconnectorhq.com/contacts/upsert".
Definition appointments_url : string :=
  "https://services.leadconnectorhq.com/calendars/events/appointments".

(** The headers every outbound call has to carry. *)
Definition authenticated_post (e : env) (c : outbound) : Prop :=
  method c = "POST"
  ∧ authorization c = "Bearer " +:+ interpolate (GHL_PRIVATE_TOKEN e)
  ∧ version c = GHL_API_VERSION e.

(** * The other two drafts

    The second and third copy of the service in [server.js] share the
    helpers of the first one ([normalizeTime], [extractAttendee], and in the
    third copy [ghlRequest], which are the same text) and differ in the
    rest. Both throw objects made with [new Error]. *)

(** What a [catch] clause may receive: an exception of the run time or of
    the gateway, or an object made by [new Error(message)]. *)
Inductive thrown : Type :=
| Native (e : exn)
| ErrorObject (message : string).

(** [err.message] *)
Definition thrown_message (t : thrown) : string :=
  match t with
  | Native e => exn_message e
  | ErrorObject m => m
  end.

(** [err.status] *)
Definition thrown_status (t : thrown) : value :=
  match t with
  | Native (GhlError st _) => VNum st
  | _ => VUndef
  end.

Inductive attempt (A : Type) : Type :=
| Done (a : A)
| Thrown (t : thrown).

Arguments Done {A} a.
Arguments Thrown {A} t.

(** Computations that may call the CRM and may throw either kind. *)
Definition T (A : Type) : Type := list outbound → attempt A * list outbound.

#[global] Instance T_ret : MRet T := λ _ a tr, (Done a, tr).
#[global] Instance T_bind : MBind T := λ _ _ k c tr,
  match c tr with
  | (Done a, tr') => k a tr'
  | (Thrown t, tr') => (Thrown t, tr')
  end.

Definition of_result {A : Type} (r : result A) : T A :=
  λ tr, (match r with
         | Ok a => Done a
         | Throw e => Thrown (Native e)
         end, tr).

Definition of_M {A : Type} (c : M A) : T A :=
  λ tr, match c tr with
        | (Ok a, tr') => (Done a, tr')
        | (Throw e, tr') => (Thrown (Native e), tr')
        end.

(** [throw new Error(message)] *)
Definition raise {A : Type} (message : string) : T A :=
  λ tr, (Thrown (ErrorObject message), tr).

(** [v === s] for a string [s] *)
Definition strict_equal_text (v : value) (s : string) : bool :=
  match v with
  | VStr t => String.eqb t s
  | _ => false
  end.

(** [v !== undefined] *)
Definition defined (v : value) : bool :=
  match v with
  | VUndef => false
  | _ => true
  end.

(** ** The third copy: calendar routing without user, exact labels *)

Module V3.

Definition calendarMap_item (m : gmap string string) (item : string)
  : gmap string string :=
  match Str.split ":" item with
  | email :: id :: _ =>
      if (nonempty email && nonempty id)%bool
      then <[Str.toLowerCase (Str.trim email) := Str.trim id]> m
      else m
  | _ => m
  end.

Definition calendarMap (e : env) : gmap string string :=
  if nonempty (CALENDAR_MAPPING e)
  then fold_left calendarMap_item (Str.split "," (CALENDAR_MAPPING e)) ∅
  else ∅.

Definition fieldMap_item (m : list (string * string)) (item : string)
  : list (string * string) :=
  match Str.split ":" item with
  | label :: key :: _ =>
      if (nonempty label && nonempty key)%bool
      then map_set m (Str.trim label) (Str.trim key)
      else m
  | _ => m
  end.

Definition fieldMap (e : env) : list (string * string) :=
  if nonempty (CUSTOM_FIELD_MAPPING e)
  then fold_left fieldMap_item (Str.split "," (CUSTOM_FIELD_MAPPING e)) []
  else [].

(** The inner loop of [extractCustomFields]: every entry with the label
    and a defined value is assigned, one after the other. *)
Fixpoint assign_matches (label ghlKey : string) (entries : list value)
  (fields : list (string * value)) : result (list (string * value)) :=
  match entries with
  | [] => Ok fields
  | entry :: rest =>
      if (strict_equal_text (opt entry "label") label
          && defined (opt entry "value"))%bool
      then v ← get entry "value";
           assign_matches label ghlKey rest (obj_set fields ghlKey v)
      else assign_matches label ghlKey rest fields
  end.

Fixpoint map_fields (fm : list (string * string)) (responses : value)
  (fields : list (string * value)) : result (list (string * value)) :=
  match fm with
  | [] => Ok fields
  | (label, ghlKey) :: rest =>
      fields' ← assign_matches label ghlKey (enum_values responses) fields;
      map_fields rest responses fields'
  end.

Definition extractCustomFields (e : env) (payload : value)
  : result (list (string * value)) :=
  map_fields (fieldMap e) (or_ (opt payload "responses") (VObj [])) [].

(** The object literal [body] of [upsertContact]. *)
Definition upsertBody (e : env) (a : Attendee) (customFields : list (string * value))
  : result value :=
  nm ← toString (or_ (name a) (VStr "Unknown"));
  em ← toString (or_ (email a) (VStr EmptyString));
  ph ← (if truthy (phone a)
        then (λ s, [("phone", VStr s)]) <$> toString (phone a)
        else Ok []);
  Ok (VObj ([("locationId", env_value (GHL_LOCATION_ID e));
             ("name", VStr nm);
             ("email", VStr em)]
            ++ ph
            ++ [("customFields",
                 VArr (List.map (λ kv : string * value,
                                   VObj [("id", VStr kv.1); ("value", kv.2)])
                         customFields))])).

(** The object literal [body] of [createAppointment]. *)
Definition appointmentBody (e : env)
  (contactId startTime endTime title calendarId : value) : result value :=
  cid ← toString contactId;
  ttl ← toString (or_ title (VStr "LunaCal Booking"));
  st ← toString startTime;
  en ← toString endTime;
  Ok (VObj [("locationId", env_value (GHL_LOCATION_ID e));
            ("calendarId", calendarId);
            ("contactId", VStr cid);
            ("title", VStr ttl);
            ("startTime", VStr st);
            ("endTime", VStr en)]).

(** [payload?.organizer?.email?.toLowerCase()] *)
Definition organizerEmailOf (payload : value) : result value :=
  let raw := opt (opt payload "organizer") "email" in
  if nullish raw then Ok VUndef
  else (λ s, VStr (Str.toLowerCase s)) <$> as_string raw "toLowerCase".

(** The calendar match of the route handler. *)
Definition targetCalendar (e : env) (organizerEmail : value) : value :=
  match organizerEmail with
  | VStr s =>
      if truthy organizerEmail
      then match calendarMap e !! s with
           | Some id => VStr id
           | None => env_value (GHL_CALENDAR_ID e)
           end
      else env_value (GHL_CALENDAR_ID e)
  | _ => env_value (GHL_CALENDAR_ID e)
  end.

Record extraction : Type := {
  x_startTime : value;
  x_endTime : value;
  x_title : string;
  x_attendee : Attendee;
  x_customFields : list (string * value);
  x_calendarId : value
}.

Definition missing_required (x : extraction) : bool :=
  (negb (truthy (email (x_attendee x))) || negb (truthy (x_startTime x))
   || negb (truthy (x_endTime x)) || negb (truthy (x_calendarId x)))%bool.

(** The [debug] object of the 400 response. *)
Definition debug (x : extraction) : value :=
  VObj [("email", email (x_attendee x));
        ("startTime", x_startTime x);
        ("endTime", x_endTime x);
        ("targetCalendarId", x_calendarId x)].

Section Bridge.

Variable JSON_parse : string → option value.
Variable Date_toISOString : value → option string.
Variable fetch : list outbound → outbound → fetch_outcome.

Definition upsertContact (e : env) (a : Attendee) (customFields : list (string * value))
  : M value :=
  body ← lift (upsertBody e a customFields);
  resp ← ghlRequest JSON_parse fetch e "/contacts/upsert" "POST" body;
  let contactId := contactIdOf resp in
  (* the log line interpolates the contact id *)
  _ ← lift (toString contactId);
  mret contactId.

Definition createAppointment (e : env)
  (contactId startTime endTime title calendarId : value) : M value :=
  body ← lift (appointmentBody e contactId startTime endTime title calendarId);
  ghlRequest JSON_parse fetch e "/calendars/events/appointments" "POST" body.

Definition extract_all (e : env) (payload : value) : result extraction :=
  let startTime :=
    normalizeTime Date_toISOString (or_ (opt payload "startTime") (opt payload "start")) in
  let endTime :=
    normalizeTime Date_toISOString (or_ (opt payload "endTime") (opt payload "end")) in
  title ← toString (or_ (opt payload "eventTitle")
                      (or_ (opt payload "title") (VStr "LunaCal Booking")));
  a ← extractAttendee payload;
  customFields ← extractCustomFields e payload;
  organizerEmail ← organizerEmailOf payload;
  Ok {| x_startTime := startTime; x_endTime := endTime; x_title := title;
        x_attendee := a; x_customFields := customFields;
        x_calendarId := targetCalendar e organizerEmail |}.

(** The body of the [try] block of [POST /webhooks/lunacal]. *)
Definition lunacal_try (e : env) (body : value) : T response :=
  if negb (configured e)
  then mret (reply 500 [("ok", VBool false); ("message", VStr "Missing GHL configuration")])
  else
    triggerEvent ← of_result (triggerEventOf body);
    let payload := payloadOf body in
    if is_ping triggerEvent
    then mret (reply 200 [("ok", VBool true); ("message", VStr "Received PING.")])
    else
      x ← of_result (extract_all e payload);
      if missing_required x
      then mret (reply 400 [("ok", VBool false);
                            ("message", VStr "Missing required fields");
                            ("debug", debug x)])
      else
        (* the log line interpolates the email *)
        _ ← of_result (toString (email (x_attendee x)));
        contactId ← of_M (upsertContact e (x_attendee x) (x_customFields x));
        if negb (truthy contactId)
        then raise "Failed to get contactId from GHL"
        else
          appointment ← of_M (createAppointment e contactId (x_startTime x)
                                (x_endTime x) (VStr (x_title x)) (x_calendarId x));
          mret (reply 200 [("ok", VBool true);
                           ("message", VStr "Synced to GoHighLevel");
                           ("contactId", contactId);
                           ("calendarId", x_calendarId x);
                           ("appointmentId", opt appointment "id")]).

(** [POST /webhooks/lunacal]: the response sent and the CRM calls made. *)
Definition lunacal (e : env) (body : value) : response * list outbound :=
  match lunacal_try e body [] with
  | (Done r, calls) => (r, calls)
  | (Thrown err, calls) =>
      (reply 500 [("ok", VBool false); ("message", VStr (thrown_message err))], calls)
  end.

End Bridge.

End V3.

(** ** The second copy: event-type gate, upstream status propagated *)

Module V2.

Definition shouldCreateAppointment (triggerEvent : value) : bool :=
  match toString (or_ triggerEvent (VStr EmptyString)) with
  | Ok s =>
      let normalized := Str.toUpperCase s in
      (Str.includes normalized "CREATED" || Str.includes normalized "BOOKED"
       || Str.includes normalized "RESCHEDULED")%bool
  | Throw _ => false
  end.

(** [!GHL_PRIVATE_TOKEN || !GHL_LOCATION_ID] negated *)
Definition credentials (e : env) : bool :=
  (truthy (env_value (GHL_PRIVATE_TOKEN e)) && truthy (env_value (GHL_LOCATION_ID e)))%bool.

(** [!GHL_PRIVATE_TOKEN || !GHL_LOCATION_ID || !GHL_CALENDAR_ID] negated *)
Definition configured (e : env) : bool :=
  (credentials e && truthy (env_value (GHL_CALENDAR_ID e)))%bool.

(** The object literal [body] of [upsertContact]. *)
Definition upsertBody (e : env) (a : Attendee) : result value :=
  nm ← toString (or_ (name a) (VStr "Unknown"));
  em ← toString (or_ (email a) (VStr EmptyString));
  ph ← (if truthy (phone a)
        then (λ s, [("phone", VStr s)]) <$> toString (phone a)
        else Ok []);
  Ok (VObj ([("locationId", env_value (GHL_LOCATION_ID e));
             ("name", VStr nm);
             ("email", VStr em)]
            ++ ph)).

(** The object literal [body] of [createAppointment]. *)
Definition appointmentBody (e : env) (contactId startTime endTime title : value)
  : result value :=
  cid ← toString contactId;
  ttl ← toString (or_ title (VStr "LunaCal Booking"));
  st ← toString startTime;
  en ← toString endTime;
  Ok (VObj [("locationId", env_value (GHL_LOCATION_ID e));
            ("calendarId", env_value (GHL_CALENDAR_ID e));
            ("contactId", VStr cid);
            ("title", VStr ttl);
            ("startTime", VStr st);
            ("endTime", VStr en)]).

Record extraction : Type := {
  x_startTime : value;
  x_endTime : value;
  x_title : string;
  x_attendee : Attendee
}.

Definition missing_required (x : extraction) : bool :=
  (negb (truthy (email (x_attendee x))) || negb (truthy (x_startTime x))
   || negb (truthy (x_endTime x)))%bool.

(** [err.status || 500] *)
Definition status_of (t : thrown) : Z :=
  match or_ (thrown_status t) (VNum 500) with
  | VNum st => st
  | _ => 500
  end.

Section Bridge.

Variable JSON_parse : string → option value.
Variable Date_toISOString : value → option string.

(** The global [fetch], when the run time has one. *)
Variable fetch : option (list outbound → outbound → fetch_outcome).

Definition ghlRequest (e : env) (path method : string) (body : value) : T value :=
  match fetch with
  | None => raise "fetch() not available"
  | Some f => of_M (ghlRequest JSON_parse f e path method body)
  end.

Definition upsertContact (e : env) (a : Attendee) : T value :=
  if negb (credentials e) then raise "Missing GHL credentials"
  else
    body ← of_result (upsertBody e a);
    resp ← ghlRequest e "/contacts/upsert" "POST" body;
    let contactId := contactIdOf resp in
    if negb (truthy contactId) then raise "No contactId in response"
    else mret contactId.

Definition createAppointment (e : env) (contactId startTime endTime title : value)
  : T value :=
  if negb (configured e) then raise "Missing GHL credentials"
  else
    body ← of_result (appointmentBody e contactId startTime endTime title);
    ghlRequest e "/calendars/events/appointments" "POST" body.

(** The extraction steps of the route handler, which come before the PING
    check in this copy. *)
Definition extract_all (payload : value) : result extraction :=
  let startTimeRaw :=
    or_ (opt payload "startTime")
      (or_ (opt payload "start")
         (or_ (opt (opt payload "booking") "startTime") VNull)) in
  let endTimeRaw :=
    or_ (opt payload "endTime")
      (or_ (opt payload "end")
         (or_ (opt (opt payload "booking") "endTime") VNull)) in
  let startTime := normalizeTime Date_toISOString startTimeRaw in
  let endTime := normalizeTime Date_toISOString endTimeRaw in
  title ← toString (or_ (opt payload "eventTitle")
                      (or_ (opt payload "title")
                         (or_ (opt (opt payload "booking") "title")
                            (VStr "LunaCal Booking"))));
  a ← extractAttendee payload;
  Ok {| x_startTime := startTime; x_endTime := endTime; x_title := title;
        x_attendee := a |}.

(** The body of the [try] block of [POST /webhooks/lunacal]. *)
Definition lunacal_try (e : env) (body : value) : T response :=
  if negb (configured e)
  then mret (reply 500 [("ok", VBool false); ("message", VStr "Missing GHL configuration")])
  else
    triggerEvent ← of_result (triggerEventOf body);
    x ← of_result (extract_all (payloadOf body));
    if is_ping triggerEvent
    then mret (reply 200 [("ok", VBool true);
                          ("message", VStr "Received PING. No action taken.")])
    else if missing_required x
    then mret (reply 400 [("ok", VBool false);
                          ("message", VStr "Missing required fields");
                          ("debug", VObj [("email", email (x_attendee x));
                                          ("startTime", x_startTime x);
                                          ("endTime", x_endTime x)])])
    else if negb (shouldCreateAppointment (VStr triggerEvent))
    then mret (reply 200 [("ok", VBool true);
                          ("message",
                           VStr ("Received " +:+ triggerEvent +:+ ". No action taken."))])
    else
      (* the log line interpolates the email *)
      _ ← of_result (toString (email (x_attendee x)));
      contactId ← upsertContact e (x_attendee x);
      appointment ← createAppointment e contactId (x_startTime x) (x_endTime x)
                      (VStr (x_title x));
      mret (reply 200 [("ok", VBool true);
                       ("message", VStr "Synced to GoHighLevel");
                       ("contactId", contactId)]).

(** [POST /webhooks/lunacal]: the response sent and the CRM calls made. *)
Definition lunacal (e : env) (body : value) : response * list outbound :=
  match lunacal_try e body [] with
  | (Done r, calls) => (r, calls)
  | (Thrown err, calls) =>
      ({| status := status_of err;
          json := VObj [("ok", VBool false); ("message", VStr (thrown_message err))] |},
       calls)
  end.

End Bridge.

End V2.

(** Text of ASCII characters only: the range on which [toUpperCase] of the
    run time is the case mapping of [Str]. *)
Definition ascii_text (s : string) : bool :=
  all_chars (λ c, Nat.ltb (Str.code c) 128) s.

(** Events the second copy acts upon. *)
Definition booking_event (t : string) : Prop :=
  occurs_in_ignoring_case "CREATED" t ∨ occurs_in_ignoring_case "BOOKED" t
  ∨ occurs_in_ignoring_case "RESCHEDULED" t.

(** A cancellation of the sample booking. *)
Definition cancellation_body : value :=
  VObj [("triggerEvent", VStr "BOOKING.CANCELLED"); ("payload", booking_payload)].

(** A booking without attendee whose title is an object with an own
    [toString] property. *)
Definition booking_object_title : value :=
  VObj [("triggerEvent", VStr "BOOKING.CREATED");
        ("payload", VObj [("title", VObj [("toString", VNum 1)])])].

(** * Properties *)

(** ** Substrings *)

Lemma startsWith_spec (s p : string) :
  Str.startsWith s p = true ↔ ∃ post : string, s = p +:+ post.
Proof.
  revert s. induction p as [|a p IH]; intros s; simpl.
  - split; [intros _; by exists s | done].
  - destruct s as [|b s]; simpl.
    + split; [done | intros [post H]; discriminate H].
    + rewrite andb_true_iff, Ascii.eqb_eq, IH. split.
      * intros [-> [post ->]]. by exists post.
      * intros [post H]. injection H as -> ->. split; [done | by exists post].
Qed.

Lemma includes_unfold (s n : string) :
  Str.includes s n =
  (Str.startsWith s n
   || match s with
      | EmptyString => false
      | String _ s' => Str.includes s' n
      end)%bool.
Proof. by destruct s. Qed.

Lemma includes_spec (s n : string) :
  Str.includes s n = true ↔ occurs_in n s.
Proof.
  unfold occurs_in. induction s as [|c s IH]; rewrite includes_unfold, orb_true_iff.
  - rewrite startsWith_spec. split.
    + intros [[post H] | H]; [by exists EmptyString, post | done].
    + intros [pre [post H]]. left. destruct pre; simpl in H; [by exists post | done].
  - rewrite startsWith_spec, IH. split.
    + intros [[post H] | [pre [post H]]].
      * by exists EmptyString, post.
      * exists (String c pre), post. simpl. by rewrite H.
    + intros [pre [post H]]. destruct pre as [|c' pre]; simpl in H.
      * left. by exists post.
      * right. injection H as _ ->. by exists pre, post.
Qed.

Lemma includes_false (s n : string) :
  Str.includes s n = false ↔ ¬ occurs_in n s.
Proof.
  rewrite <- includes_spec. by destruct (Str.includes s n).
Qed.

(** ** Routing *)

Lemma nonempty_true (s : string) : nonempty s = true ↔ s ≠ EmptyString.
Proof.
  unfold nonempty. rewrite negb_true_iff. split.
  - intros H ->. by rewrite String.eqb_refl in H.
  - intros H. by apply String.eqb_neq.
Qed.

Lemma nonempty_false (s : string) : nonempty s = false ↔ s = EmptyString.
Proof.
  unfold nonempty. rewrite negb_false_iff. apply String.eqb_eq.
Qed.

Lemma calendarMap_item_no_empty_key (m : gmap string CalendarRoute) (item : string) :
  m !! EmptyString = None → calendarMap_item m item !! EmptyString = None.
Proof.
  intros Hm. unfold calendarMap_item.
  destruct (Str.trim <$> Str.split ":" item !! 1%nat) as [c|]; [|done].
  destruct (nonempty _ && nonempty c)%bool eqn:Hne; [|done].
  apply andb_true_iff in Hne as [Hne _]. apply nonempty_true in Hne.
  by rewrite lookup_insert_ne.
Qed.

Lemma calendarMap_fold_no_empty_key (items : list string) (m : gmap string CalendarRoute) :
  m !! EmptyString = None → fold_left calendarMap_item items m !! EmptyString = None.
Proof.
  revert m. induction items as [|item items IH]; intros m Hm; simpl; [done|].
  by apply IH, calendarMap_item_no_empty_key.
Qed.

(** The empty string is never a key of the calendar-route map. *)
Lemma calendarMap_no_empty_key (e : env) : calendarMap e !! EmptyString = None.
Proof.
  unfold calendarMap. destruct (nonempty _); [|done].
  by apply calendarMap_fold_no_empty_key.
Qed.

Lemma correctOrganizerEmail_hit (s : string) :
  occurs_in "suraj.kumar@digitalwebsolutions" s →
  correctOrganizerEmail s = "suraj.kumar@digitalwebsolutions.in".
Proof.
  intros H. unfold correctOrganizerEmail. apply includes_spec in H. by rewrite H.
Qed.

Lemma correctOrganizerEmail_miss (s : string) :
  ¬ occurs_in "suraj.kumar@digitalwebsolutions" s → correctOrganizerEmail s = s.
Proof.
  intros H. unfold correctOrganizerEmail. apply includes_false in H. by rewrite H.
Qed.

Lemma resolveRoute_lookup (e : env) (organizerEmail : string) :
  resolveRoute e organizerEmail = lookupRoute e (correctOrganizerEmail organizerEmail).
Proof.
  unfold resolveRoute, lookupRoute.
  destruct (nonempty (correctOrganizerEmail organizerEmail)) eqn:Hne; [done|].
  apply nonempty_false in Hne. by rewrite Hne, calendarMap_no_empty_key.
Qed.

(** C7. For an organizer email that is a string, the routing step
    lower-cases it, applies the domain correction (an address containing
    the misformatted text becomes the canonical address, any other address
    is kept) and looks the corrected address up in the calendar-route map:
    a hit yields the mapped calendar id and user id, a miss yields the
    default calendar id with a null user id. *)
Theorem routing_resolver (e : env) (payload : value) (addr : string) :
  opt (opt payload "organizer") "email" = VStr addr →
  ∃ key : string,
    organizerEmailOf payload = Ok (Str.toLowerCase addr)
    ∧ corrected_to (Str.toLowerCase addr) key
    ∧ resolveRoute e (Str.toLowerCase addr) =
        match calendarMap e !! key with
        | Some mapping => (VStr (calId mapping), env_value (userId mapping))
        | None => (env_value (GHL_CALENDAR_ID e), VNull)
        end.
Proof.
  intros Haddr. exists (correctOrganizerEmail (Str.toLowerCase addr)).
  split; [|split].
  - unfold organizerEmailOf. by rewrite Haddr.
  - unfold corrected_to.
    destruct (Str.includes (Str.toLowerCase addr) "suraj.kumar@digitalwebsolutions")
      eqn:Hinc.
    + left. apply includes_spec in Hinc. split; [done|].
      by apply correctOrganizerEmail_hit.
    + right. apply includes_false in Hinc. split; [done|].
      by apply correctOrganizerEmail_miss.
  - apply resolveRoute_lookup.
Qed.

(** C10. The domain correction tests containment: every lower-cased
    organizer email in which [suraj.kumar@digitalwebsolutions] occurs
    anywhere is replaced as a whole by the canonical address before the
    lookup, and every other email reaches the lookup unchanged. *)
Theorem organizer_correction_by_containment (e : env) (organizerEmail : string) :
  (occurs_in "suraj.kumar@digitalwebsolutions" organizerEmail →
   correctOrganizerEmail organizerEmail = "suraj.kumar@digitalwebsolutions.in"
   ∧ resolveRoute e organizerEmail = lookupRoute e "suraj.kumar@digitalwebsolutions.in")
  ∧ (¬ occurs_in "suraj.kumar@digitalwebsolutions" organizerEmail →
     correctOrganizerEmail organizerEmail = organizerEmail
     ∧ resolveRoute e organizerEmail = lookupRoute e organizerEmail).
Proof.
  split; intros H; rewrite resolveRoute_lookup.
  - by rewrite (correctOrganizerEmail_hit _ H).
  - by rewrite (correctOrganizerEmail_miss _ H).
Qed.

(** ** Case-insensitive containment *)

Lemma str_map_app (f : ascii → ascii) (a b : string) :
  Str.map f (a +:+ b) = Str.map f a +:+ Str.map f b.
Proof. induction a as [|c a IH]; simpl; [done | by rewrite IH]. Qed.

Lemma str_map_split (f : ascii → ascii) (a b s : string) :
  Str.map f s = a +:+ b →
  ∃ s1 s2 : string, s = s1 +:+ s2 ∧ Str.map f s1 = a ∧ Str.map f s2 = b.
Proof.
  revert s. induction a as [|c a IH]; intros s H; simpl in H.
  - by exists EmptyString, s.
  - destruct s as [|d s]; simpl in H; [done|].
    injection H as Hc Hs. destruct (IH _ Hs) as (s1 & s2 & -> & H1 & H2).
    exists (String d s1), s2. simpl. by rewrite Hc, H1.
Qed.

Lemma is_ping_spec (t : string) :
  is_ping t = true ↔ occurs_in_ignoring_case "PING" t.
Proof.
  unfold is_ping, occurs_in_ignoring_case, Str.toUpperCase.
  rewrite includes_spec. unfold occurs_in. split.
  - intros (pre & post & H).
    apply str_map_split in H as (s1 & s23 & -> & H1 & H23).
    apply str_map_split in H23 as (u & s3 & -> & Hu & H3).
    by exists s1, u, s3.
  - intros (pre & u & post & -> & Hu).
    exists (Str.map Str.upper_char pre), (Str.map Str.upper_char post).
    by rewrite !str_map_app, Hu.
Qed.

(** ** The CRM gateway *)

Section Gateway.

Variable JSON_parse : string → option value.
Variable fetch : list outbound → outbound → fetch_outcome.

Lemma ok_status_spec (st : Z) : ok_status st = true ↔ 200 ≤ st ≤ 299.
Proof. unfold ok_status. rewrite andb_true_iff, !Z.leb_le. lia. Qed.

Lemma ghlRequest_responded (e : env) (path method : string) (body : value)
  (tr : list outbound) (st : Z) (text : string) :
  fetch tr (ghlCall e path method body) = Responded st text →
  ghlRequest JSON_parse fetch e path method body tr =
    (if ok_status st then Ok (parsedBody JSON_parse text)
     else Throw (GhlError st (parsedBody JSON_parse text)),
     tr ++ [ghlCall e path method body]).
Proof.
  intros H. unfold ghlRequest. rewrite H. by destruct (ok_status st).
Qed.

(** C9. Whatever the CRM answers to a gateway request, the body is parsed
    as JSON and a text that does not parse is kept as [{ raw: text }]; a
    status from 200 to 299 returns that body, any other status throws a
    failure carrying the status and that body. *)
Theorem ghlRequest_surfaces_status (e : env) (path method : string) (body : value)
  (tr : list outbound) (st : Z) (text : string) :
  fetch tr (ghlCall e path method body) = Responded st text →
  let data := match JSON_parse text with
              | Some v => v
              | None => VObj [("raw", VStr text)]
              end in
  (200 ≤ st ≤ 299 →
   ghlRequest JSON_parse fetch e path method body tr
   = (Ok data, tr ++ [ghlCall e path method body]))
  ∧ (¬ 200 ≤ st ≤ 299 →
     ghlRequest JSON_parse fetch e path method body tr
     = (Throw (GhlError st data), tr ++ [ghlCall e path method body])).
Proof.
  intros H data. rewrite (ghlRequest_responded _ _ _ _ _ _ _ H).
  fold (parsedBody JSON_parse text). subst data.
  split; intros Hst.
  - apply ok_status_spec in Hst. by rewrite Hst.
  - destruct (ok_status st) eqn:Hok; [|done].
    by apply ok_status_spec in Hok.
Qed.

End Gateway.

(** ** The attendee extractor *)

Lemma first_attendee_get (payload : value) (xs : list value) :
  opt payload "attendees" = VArr xs →
  first_elem <$> get payload "attendees" = Ok (first_attendee payload).
Proof.
  intros H. unfold first_attendee. rewrite H.
  unfold opt in H. unfold get. destruct (nullish payload); [done|].
  by rewrite H.
Qed.

Lemma extractAttendee_chain (payload : value) :
  extractAttendee payload =
  Ok {| name := first_truthy (sources payload "name") (VStr "Unknown");
        email := first_truthy (sources payload "email") VNull;
        phone := first_truthy (sources payload "phone") VNull |}.
Proof.
  unfold extractAttendee.
  assert (match opt payload "attendees" with
          | VArr _ => first_elem <$> get payload "attendees"
          | _ => Ok VNull
          end = Ok (first_attendee payload)) as ->.
  { destruct (opt payload "attendees") eqn:H;
      try (unfold first_attendee; by rewrite H).
    by eapply first_attendee_get. }
  reflexivity.
Qed.

Lemma first_truthy_all_falsy (l : list value) (dflt : value) :
  Forall (λ v, truthy v = false) l → first_truthy l dflt = dflt.
Proof.
  induction 1 as [|v l Hv _ IH]; simpl; [done|]. by rewrite Hv.
Qed.

(** C4. The attendee extractor walks, for each of name, email and phone,
    the chain first attendee, [responses.<field>.value], [invitee.<field>],
    top-level [<field>] and takes the first truthy value; when no source
    holds one the result is Unknown, null, null; the function returns
    normally on every payload. *)
Theorem extractAttendee_first_truthy (payload : value) :
  extractAttendee payload =
    Ok {| name := first_truthy (sources payload "name") (VStr "Unknown");
          email := first_truthy (sources payload "email") VNull;
          phone := first_truthy (sources payload "phone") VNull |}
  ∧ ((∀ field : string, Forall (λ v, truthy v = false) (sources payload field)) →
     extractAttendee payload = Ok unknown_attendee).
Proof.
  split; [apply extractAttendee_chain|].
  intros H. rewrite extractAttendee_chain.
  by rewrite !first_truthy_all_falsy by apply H.
Qed.

Lemma extractAttendee_first_truthy_witness :
  (∀ field : string, Forall (λ v, truthy v = false) (sources (VNum 7) field))
  ∧ extractAttendee (VNum 7) = Ok unknown_attendee.
Proof.
  assert (∀ field : string, Forall (λ v, truthy v = false) (sources (VNum 7) field)) as H.
  { intros field. by repeat constructor. }
  split; [exact H|].
  exact (proj2 (extractAttendee_first_truthy (VNum 7)) H).
Defined.

(** The email of an attendee entry is defined though empty, and is passed
    over for the top-level email. *)
Lemma extractAttendee_skips_defined_empty :
  first_defined (sources payload_empty_attendee_email "email") VNull = VStr EmptyString
  ∧ email <$> extractAttendee payload_empty_attendee_email = Ok (VStr "jo@x.com")
  ∧ email <$> extractAttendee payload_empty_attendee_email
    ≠ Ok (first_defined (sources payload_empty_attendee_email "email") VNull).
Proof. split; [reflexivity | split; [reflexivity | discriminate]]. Qed.

(** ** The webhook orchestrator *)

Lemma missing_required_spec (x : extraction) :
  missing_required x = true ↔
  truthy (email (x_attendee x)) = false ∨ truthy (x_startTime x) = false
  ∨ truthy (x_endTime x) = false ∨ truthy (x_calendarId x) = false.
Proof.
  unfold missing_required. rewrite !orb_true_iff, !negb_true_iff. tauto.
Qed.

Section Orchestrator.

Variable JSON_parse : string → option value.
Variable Date_toISOString : value → option string.
Variable fetch : list outbound → outbound → fetch_outcome.

Abbreviation handler := (lunacal JSON_parse Date_toISOString fetch).

Lemma lunacal_unconfigured (e : env) (body : value) :
  configured e = false →
  handler e body
  = (reply 500 [("ok", VBool false); ("message", VStr "Missing GHL configuration")], []).
Proof.
  intros H. unfold lunacal, lunacal_try. by rewrite H.
Qed.

Lemma lunacal_ping (e : env) (body : value) (t : string) :
  configured e = true → triggerEventOf body = Ok t → is_ping t = true →
  handler e body
  = (reply 200 [("ok", VBool true); ("message", VStr "Received PING.")], []).
Proof.
  intros Hc Ht Hp. unfold lunacal, lunacal_try. rewrite Hc. simpl.
  unfold mbind, M_bind, lift. by rewrite Ht, Hp.
Qed.

Lemma lunacal_trigger_throws (e : env) (body : value) (err : exn) :
  configured e = true → triggerEventOf body = Throw err →
  handler e body
  = (reply 500 [("ok", VBool false); ("message", VStr (exn_message err))], []).
Proof.
  intros Hc Ht. unfold lunacal, lunacal_try. rewrite Hc. simpl.
  unfold mbind, M_bind, lift. by rewrite Ht.
Qed.

Lemma lunacal_extraction_throws (e : env) (body : value) (t : string) (err : exn) :
  configured e = true → triggerEventOf body = Ok t → is_ping t = false →
  extract_all Date_toISOString e (payloadOf body) = Throw err →
  handler e body
  = (reply 500 [("ok", VBool false); ("message", VStr (exn_message err))], []).
Proof.
  intros Hc Ht Hp Hx. unfold lunacal, lunacal_try. rewrite Hc. simpl.
  unfold mbind, M_bind, lift. by rewrite Ht, Hp, Hx.
Qed.

Lemma lunacal_missing_required (e : env) (body : value) (t : string) (x : extraction) :
  configured e = true → triggerEventOf body = Ok t → is_ping t = false →
  extract_all Date_toISOString e (payloadOf body) = Ok x →
  missing_required x = true →
  handler e body
  = (reply 400 [("ok", VBool false); ("message", VStr "Missing required fields")], []).
Proof.
  intros Hc Ht Hp Hx Hm. unfold lunacal, lunacal_try. rewrite Hc. simpl.
  unfold mbind, M_bind, lift. by rewrite Ht, Hp, Hx, Hm.
Qed.

(** No CRM call is made unless the extraction yields every required field. *)
Lemma lunacal_calls_need_required (e : env) (body : value) :
  (∀ x, extract_all Date_toISOString e (payloadOf body) = Ok x →
        missing_required x = true) →
  snd (handler e body) = [].
Proof.
  intros H.
  destruct (configured e) eqn:Hc; [|by rewrite lunacal_unconfigured].
  destruct (triggerEventOf body) as [t|err] eqn:Ht;
    [|by erewrite lunacal_trigger_throws].
  destruct (is_ping t) eqn:Hp; [by erewrite lunacal_ping|].
  destruct (extract_all Date_toISOString e (payloadOf body)) as [x|err] eqn:Hx;
    [|by erewrite lunacal_extraction_throws].
  by erewrite lunacal_missing_required by eauto.
Qed.

(** C8. A request whose derived trigger event contains PING in any
    letter case never reaches the CRM; it is answered 200 when the CRM
    credentials are configured, and 500 by the configuration check when
    they are not. *)
Theorem ping_never_reaches_crm (e : env) (body : value) (t : string) :
  triggerEventOf body = Ok t →
  occurs_in_ignoring_case "PING" t →
  snd (handler e body) = []
  ∧ (configured e = true →
     fst (handler e body)
     = reply 200 [("ok", VBool true); ("message", VStr "Received PING.")])
  ∧ (configured e = false → status (fst (handler e body)) = 500).
Proof.
  intros Ht Hp. apply is_ping_spec in Hp.
  destruct (configured e) eqn:Hc.
  - rewrite (lunacal_ping _ _ _ Hc Ht Hp). by repeat split.
  - rewrite (lunacal_unconfigured _ _ Hc). by repeat split.
Qed.

(** C2. A request that passes the configuration check, is not a PING and
    whose extraction completes is answered 400, with no CRM call, as soon
    as its email, start time, end time or calendar id is missing; and no
    request whose extraction cannot supply all four ever causes a CRM
    call. *)
Theorem missing_required_fields_rejected (e : env) (body : value) :
  (∀ (t : string) (x : extraction),
     configured e = true →
     triggerEventOf body = Ok t → is_ping t = false →
     extract_all Date_toISOString e (payloadOf body) = Ok x →
     (truthy (email (x_attendee x)) = false ∨ truthy (x_startTime x) = false
      ∨ truthy (x_endTime x) = false ∨ truthy (x_calendarId x) = false) →
     status (fst (handler e body)) = 400 ∧ snd (handler e body) = [])
  ∧ ((∀ x, extract_all Date_toISOString e (payloadOf body) = Ok x →
           truthy (email (x_attendee x)) = false ∨ truthy (x_startTime x) = false
           ∨ truthy (x_endTime x) = false ∨ truthy (x_calendarId x) = false) →
     snd (handler e body) = []).
Proof.
  split.
  - intros t x Hc Ht Hp Hx Hm. apply missing_required_spec in Hm.
    by rewrite (lunacal_missing_required _ _ _ _ Hc Ht Hp Hx Hm).
  - intros H. apply lunacal_calls_need_required.
    intros x Hx. apply missing_required_spec. by apply H.
Qed.

End Orchestrator.

Lemma ping_never_reaches_crm_witness :
  triggerEventOf ping_body = Ok "ping"
  ∧ occurs_in_ignoring_case "PING" "ping"
  ∧ lunacal parse_braces sample_dates crm_empty_object env_sample ping_body
    = (reply 200 [("ok", VBool true); ("message", VStr "Received PING.")], []).
Proof.
  assert (triggerEventOf ping_body = Ok "ping") as Ht by reflexivity.
  assert (occurs_in_ignoring_case "PING" "ping") as Hp.
  { exists EmptyString, "ping", EmptyString. split; reflexivity. }
  split; [exact Ht | split; [exact Hp|]].
  destruct (ping_never_reaches_crm parse_braces sample_dates crm_empty_object
              env_sample ping_body "ping" Ht Hp) as (Hcalls & Hok & _).
  rewrite (surjective_pairing (lunacal _ _ _ _ _)).
  rewrite Hcalls, (Hok eq_refl). reflexivity.
Defined.

(** Without credentials the configuration check answers a PING with 500. *)
Lemma ping_without_credentials_is_500 :
  triggerEventOf ping_body = Ok "ping"
  ∧ is_ping "ping" = true
  ∧ status (fst (lunacal parse_braces sample_dates crm_empty_object
                   env_no_credentials ping_body)) = 500
  ∧ status (fst (lunacal parse_braces sample_dates crm_empty_object
                   env_no_credentials ping_body)) ≠ 200.
Proof. split; [reflexivity | split; [reflexivity | split; [reflexivity | discriminate]]]. Qed.

Lemma missing_required_fields_rejected_witness :
  configured env_sample = true
  ∧ triggerEventOf booking_without_email = Ok "BOOKING.CREATED"
  ∧ is_ping "BOOKING.CREATED" = false
  ∧ email <$> extractAttendee (payloadOf booking_without_email) = Ok VNull
  ∧ status (fst (lunacal parse_braces sample_dates crm_empty_object
                   env_sample booking_without_email)) = 400
  ∧ snd (lunacal parse_braces sample_dates crm_empty_object
           env_sample booking_without_email) = [].
Proof.
  split; [reflexivity | split; [reflexivity | split; [reflexivity | split; [reflexivity|]]]].
  eapply (proj1 (missing_required_fields_rejected parse_braces sample_dates
                   crm_empty_object env_sample booking_without_email)).
  - reflexivity.
  - reflexivity.
  - reflexivity.
  - vm_compute. reflexivity.
  - left. reflexivity.
Defined.

(** A request without email is not always answered 400: a PING is
    answered 200, a server without credentials answers 500, and so does a
    request whose extraction throws; and the 400 answer to a booking
    without email carries no field values. *)
Lemma missing_email_not_always_400 :
  email <$> extractAttendee (payloadOf ping_body) = Ok VNull
  ∧ status (fst (lunacal parse_braces sample_dates crm_empty_object
                   env_sample ping_body)) = 200
  ∧ email <$> extractAttendee (payloadOf booking_without_email) = Ok VNull
  ∧ status (fst (lunacal parse_braces sample_dates crm_empty_object
                   env_no_credentials booking_without_email)) = 500
  ∧ email <$> extractAttendee (payloadOf booking_numeric_organizer) = Ok VNull
  ∧ status (fst (lunacal parse_braces sample_dates crm_empty_object
                   env_sample booking_numeric_organizer)) = 500
  ∧ lunacal parse_braces sample_dates crm_empty_object env_sample booking_without_email
    = (reply 400 [("ok", VBool false); ("message", VStr "Missing required fields")], []).
Proof. repeat (split; [vm_compute; reflexivity|]). vm_compute. reflexivity. Qed.

Lemma ghlRequest_surfaces_status_witness :
  crm_not_found [] (ghlCall env_sample "/contacts/upsert" "POST" (VObj []))
  = Responded 404 "not found"
  ∧ ¬ 200 ≤ 404 ≤ 299
  ∧ ghlRequest parse_braces crm_not_found env_sample "/contacts/upsert" "POST" (VObj []) []
    = (Throw (GhlError 404 (VObj [("raw", VStr "not found")])),
       [ghlCall env_sample "/contacts/upsert" "POST" (VObj [])]).
Proof.
  split; [reflexivity | split; [lia|]].
  apply (proj2 (ghlRequest_surfaces_status parse_braces crm_not_found env_sample
                  "/contacts/upsert" "POST" (VObj []) [] 404 "not found" eq_refl)).
  lia.
Defined.

Lemma routing_resolver_witness :
  opt (opt suraj_payload "organizer") "email"
  = VStr "Suraj.Kumar@DigitalWebSolutions.com"
  ∧ organizerEmailOf suraj_payload = Ok "suraj.kumar@digitalwebsolutions.com"
  ∧ resolveRoute env_suraj "suraj.kumar@digitalwebsolutions.com"
    = (VStr "cal_s", VStr "user_s").
Proof.
  split; [reflexivity|].
  destruct (routing_resolver env_suraj suraj_payload
              "Suraj.Kumar@DigitalWebSolutions.com" eq_refl)
    as (key & Hlower & Hkey & Hroute).
  split; [exact Hlower|]. etransitivity; [exact Hroute|].
  destruct Hkey as [[_ ->] | [Hnot _]].
  - vm_compute. reflexivity.
  - exfalso. apply Hnot. exists EmptyString, ".com". reflexivity.
Defined.

Lemma organizer_correction_by_containment_witness :
  occurs_in "suraj.kumar@digitalwebsolutions" "x.suraj.kumar@digitalwebsolutions.com"
  ∧ correctOrganizerEmail "x.suraj.kumar@digitalwebsolutions.com"
    = "suraj.kumar@digitalwebsolutions.in"
  ∧ ¬ occurs_in "suraj.kumar@digitalwebsolutions" "jane@acme.com"
  ∧ correctOrganizerEmail "jane@acme.com" = "jane@acme.com".
Proof.
  assert (occurs_in "suraj.kumar@digitalwebsolutions"
            "x.suraj.kumar@digitalwebsolutions.com") as Hin.
  { exists "x.", ".com". reflexivity. }
  assert (¬ occurs_in "suraj.kumar@digitalwebsolutions" "jane@acme.com") as Hout.
  { apply includes_false. reflexivity. }
  split; [exact Hin | split; [|split; [exact Hout|]]].
  - exact (proj1 (proj1 (organizer_correction_by_containment env_sample _) Hin)).
  - exact (proj1 (proj2 (organizer_correction_by_containment env_sample _) Hout)).
Defined.

(** ** The value normalizer *)

Lemma lower_char_not_upper (c : ascii) : Str.is_upper (Str.lower_char c) = false.
Proof. destruct c as [[] [] [] [] [] [] [] []]; reflexivity. Qed.

Lemma toLowerCase_no_upper (s : string) : has_upper (Str.toLowerCase s) = false.
Proof.
  unfold Str.toLowerCase. induction s as [|c s IH]; simpl; [done|].
  by rewrite lower_char_not_upper, IH.
Qed.

(** A lower-cased key names none of the functions of [Object.prototype]. *)
Lemma lowercase_not_prototype_function (s : string) :
  existsb (String.eqb (Str.toLowerCase s)) object_prototype_functions = false.
Proof.
  apply not_true_is_false. intros H.
  apply existsb_exists in H as (x & Hx & Heq).
  apply String.eqb_eq in Heq.
  pose proof (toLowerCase_no_upper s) as Hlow. rewrite Heq in Hlow.
  unfold object_prototype_functions in Hx. simpl in Hx.
  repeat (destruct Hx as [<- | Hx]; [discriminate Hlow|]). destruct Hx.
Qed.

Lemma own_text_valued (props : list (string * value)) (k : string) (v : value) :
  text_valued props → own props k = Some v →
  ∃ c : string, v = VStr c ∧ c ≠ EmptyString.
Proof.
  induction 1 as [|[k' v'] props Hkv _ IH]; cbn [own]; [done|].
  destruct (String.eqb k' k); [|exact IH].
  by intros [= <-].
Qed.

Lemma roleOptions_text_valued : text_valued roleOptions.
Proof. repeat constructor; eexists; (split; [reflexivity | discriminate]). Qed.

Lemma budgetOptions_text_valued : text_valued budgetOptions.
Proof. repeat constructor; eexists; (split; [reflexivity | discriminate]). Qed.

Lemma own_roleOptions_text (k : string) (v : value) :
  own roleOptions k = Some v → ∃ c : string, v = VStr c ∧ c ≠ EmptyString.
Proof. apply own_text_valued, roleOptions_text_valued. Qed.

Lemma own_budgetOptions_text (k : string) (v : value) :
  own budgetOptions k = Some v → ∃ c : string, v = VStr c ∧ c ≠ EmptyString.
Proof. apply own_text_valued, budgetOptions_text_valued. Qed.

Lemma own_app (p q : list (string * value)) (k : string) :
  own (p ++ q) k = match own p k with
                   | Some v => Some v
                   | None => own q k
                   end.
Proof.
  induction p as [|[k' v'] p IH]; cbn [own app]; [done|].
  by destruct (String.eqb k' k).
Qed.

Lemma truthy_text (c : string) : c ≠ EmptyString → truthy (VStr c) = true.
Proof. intros H. simpl. by apply nonempty_true. Qed.

Lemma normalizeDropdownValue_falsy (v : value) :
  truthy v = false → normalizeDropdownValue v = Ok v.
Proof. intros H. unfold normalizeDropdownValue. by rewrite H. Qed.

(** What the normalizer returns on a non-empty string, case by case. *)
Lemma normalizeDropdownValue_string (s : string) :
  s ≠ EmptyString →
  normalizeDropdownValue (VStr s) =
  Ok (match own roleOptions (Str.toLowerCase (Str.trim s)) with
      | Some c => c
      | None =>
          match own budgetOptions (Str.toLowerCase (Str.trim s)) with
          | Some c => c
          | None =>
              if String.eqb (Str.toLowerCase (Str.trim s)) "constructor"
              then VNative (BuiltinFunction "Object")
              else if String.eqb (Str.toLowerCase (Str.trim s)) "__proto__"
              then VNative ObjectPrototype
              else VStr (Str.trim s)
          end
      end).
Proof.
  intros Hs. unfold normalizeDropdownValue.
  rewrite (truthy_text _ Hs). cbn [negb toString mbind result_bind rbind].
  set (key := Str.toLowerCase (Str.trim s)).
  unfold literal_get.
  destruct (own roleOptions key) as [c|] eqn:Hrole.
  { destruct (own_roleOptions_text _ _ Hrole) as (t & -> & Ht).
    by rewrite (truthy_text _ Ht). }
  destruct (String.eqb key "constructor") eqn:Hctor.
  { apply String.eqb_eq in Hctor. by rewrite Hctor. }
  destruct (String.eqb key "__proto__") eqn:Hproto.
  { apply String.eqb_eq in Hproto. by rewrite Hproto. }
  assert (existsb (String.eqb key) object_prototype_functions = false) as ->
    by apply lowercase_not_prototype_function.
  cbn [truthy].
  destruct (own budgetOptions key) as [c|] eqn:Hbudget; [|done].
  destruct (own_budgetOptions_text _ _ Hbudget) as (t & -> & Ht).
  by rewrite (truthy_text _ Ht).
Qed.

(** A string that cleans up to a known synonym gets the canonical
    spelling. *)
Lemma normalizeDropdownValue_known (s : string) (c : value) :
  own (roleOptions ++ budgetOptions) (Str.toLowerCase (Str.trim s)) = Some c →
  normalizeDropdownValue (VStr s) = Ok c.
Proof.
  intros H.
  assert (s ≠ EmptyString) as Hs by (intros ->; discriminate H).
  rewrite (normalizeDropdownValue_string _ Hs).
  rewrite own_app in H.
  destruct (own roleOptions _); [congruence|]. by rewrite H.
Qed.

(** A string that matches no synonym comes back trimmed, unless it cleans
    up to one of the two lower-case names found on [Object.prototype]. *)
Lemma normalizeDropdownValue_unrecognized (s : string) :
  own (roleOptions ++ budgetOptions) (Str.toLowerCase (Str.trim s)) = None →
  Str.toLowerCase (Str.trim s) ≠ "constructor" →
  Str.toLowerCase (Str.trim s) ≠ "__proto__" →
  normalizeDropdownValue (VStr s) = Ok (VStr (Str.trim s)).
Proof.
  intros H Hc Hp.
  destruct (String.eqb s EmptyString) eqn:Hs.
  { apply String.eqb_eq in Hs. by subst s. }
  apply String.eqb_neq in Hs.
  rewrite (normalizeDropdownValue_string _ Hs).
  apply String.eqb_neq in Hc, Hp. rewrite Hc, Hp.
  rewrite own_app in H.
  destruct (own roleOptions _); [done|]. by rewrite H.
Qed.

(** The normalizer returns normally on every string and on null. *)
Lemma normalizeDropdownValue_text_returns (s : string) :
  ∃ v : value, normalizeDropdownValue (VStr s) = Ok v.
Proof.
  destruct (String.eqb s EmptyString) eqn:Hs.
  - apply String.eqb_eq in Hs. subst s. by eexists.
  - apply String.eqb_neq in Hs. rewrite (normalizeDropdownValue_string _ Hs). by eexists.
Qed.

(** C3. On the input [constructor], which is no known synonym, the
    normalizer does not return the trimmed input: the look-up in the role
    table finds the inherited [Object.prototype.constructor], and the
    function [Object] is returned. *)
Theorem normalizeDropdownValue_constructor :
  own (roleOptions ++ budgetOptions) (Str.toLowerCase (Str.trim "constructor")) = None
  ∧ normalizeDropdownValue (VStr "constructor") = Ok (VNative (BuiltinFunction "Object"))
  ∧ normalizeDropdownValue (VStr "constructor") ≠ Ok (VStr (Str.trim "constructor")).
Proof. split; [reflexivity | split; [reflexivity | discriminate]]. Qed.

(** ** The field mapper *)

Lemma bind_Ok {A B : Type} (a : A) (k : A → result B) : Ok a ≫= k = k a.
Proof. reflexivity. Qed.

Lemma as_string_label (l method : string) :
  as_string (or_ (VStr l) (VStr EmptyString)) method = Ok l.
Proof.
  unfold or_. cbn [truthy]. destruct (String.eqb l EmptyString) eqn:H; [|done].
  apply String.eqb_eq in H. by subst l.
Qed.

Lemma toString_falsy (v : value) : truthy v = false → ∃ s : string, toString v = Ok s.
Proof. destruct v as [| |[]| | | | |]; intros H; try done; by eexists. Qed.

Lemma toString_literal_get (props : list (string * value)) (k : string) :
  text_valued props → ∃ s : string, toString (literal_get props k) = Ok s.
Proof.
  intros Hprops. unfold literal_get.
  destruct (own props k) as [v|] eqn:Hown.
  - destruct (own_text_valued _ _ _ Hprops Hown) as (c & -> & _). by eexists.
  - repeat (case_match; [by eexists|]). by eexists.
Qed.

(** Whatever the normalizer accepts and returns can be interpolated into
    the log line. *)
Lemma normalizeDropdownValue_loggable (rawValue finalValue : value) :
  normalizeDropdownValue rawValue = Ok finalValue →
  (∃ a : string, toString rawValue = Ok a) ∧ (∃ b : string, toString finalValue = Ok b).
Proof.
  unfold normalizeDropdownValue.
  destruct (truthy rawValue) eqn:Ht; cbn [negb].
  - destruct (toString rawValue) as [s|err]; cbn [mbind result_bind rbind]; [|done].
    intros H. split; [by eexists|].
    repeat case_match; injection H as <-;
      eauto using toString_literal_get, roleOptions_text_valued,
                  budgetOptions_text_valued.
  - intros [= <-]. split; by apply toString_falsy.
Qed.

Lemma scan_responses_cons (targetLabel : string) (entry : value) (rest : list value)
  (l : string) :
  label_of entry = VStr l →
  scan_responses targetLabel (entry :: rest) =
  if String.eqb (normalizeLabel l) (normalizeLabel targetLabel)
  then rawValue ← get entry "value";
       finalValue ← normalizeDropdownValue rawValue;
       _ ← toString rawValue;
       _ ← toString finalValue;
       Ok (Some finalValue)
  else scan_responses targetLabel rest.
Proof.
  intros Hl. cbn [scan_responses]. fold (label_of entry). rewrite Hl.
  destruct (String.eqb l EmptyString) eqn:He.
  - apply String.eqb_eq in He. by subst l.
  - unfold as_string. reflexivity.
Qed.

(** Entries that do not match are skipped. *)
Lemma scan_responses_skip (targetLabel : string) (before rest : list value) :
  Forall (passes_over targetLabel) before →
  scan_responses targetLabel (before ++ rest) = scan_responses targetLabel rest.
Proof.
  induction 1 as [|entry before (l & Hl & Hne) _ IH]; [done|].
  cbn [app]. rewrite (scan_responses_cons _ _ _ _ Hl).
  apply String.eqb_neq in Hne. by rewrite Hne.
Qed.

(** A configured label that no entry matches yields nothing. *)
Lemma scan_responses_no_match (targetLabel : string) (entries : list value) :
  Forall (passes_over targetLabel) entries →
  scan_responses targetLabel entries = Ok None.
Proof.
  intros H. rewrite <- (app_nil_r entries). by rewrite scan_responses_skip.
Qed.

(** The first matching entry decides; what follows it is not looked at. *)
Lemma scan_responses_first_match (targetLabel : string) (before after : list value)
  (entry rawValue finalValue : value) (l : string) :
  Forall (passes_over targetLabel) before →
  label_of entry = VStr l →
  normalizeLabel l = normalizeLabel targetLabel →
  get entry "value" = Ok rawValue →
  normalizeDropdownValue rawValue = Ok finalValue →
  scan_responses targetLabel (before ++ entry :: after) = Ok (Some finalValue).
Proof.
  intros Hbefore Hl Heq Hraw Hfin.
  rewrite (scan_responses_skip _ _ _ Hbefore), (scan_responses_cons _ _ _ _ Hl).
  destruct (normalizeDropdownValue_loggable _ _ Hfin) as [[a Ha] [b Hb]].
  apply String.eqb_eq in Heq. rewrite Heq, Hraw, bind_Ok. cbv beta.
  rewrite Hfin, bind_Ok. cbv beta. by rewrite Ha, Hb.
Qed.

Lemma own_replace_own (props : list (string * value)) (k : string) (v : value) :
  has_own props k = true → own (replace_own props k v) k = Some v.
Proof.
  unfold has_own. induction props as [|[k' v'] props IH]; cbn [own replace_own]; [done|].
  destruct (String.eqb k' k) eqn:Hk; cbn [own]; rewrite Hk; [done | exact IH].
Qed.

Lemma own_insert_index (props : list (string * value)) (i : Z) (k : string) (v : value) :
  own props k = None → own (insert_index props i k v) k = Some v.
Proof.
  induction props as [|[k' v'] props IH]; cbn [own insert_index].
  - by rewrite String.eqb_refl.
  - destruct (String.eqb k' k) eqn:Hk; [done|]. intros Hnone.
    repeat case_match; cbn [own]; rewrite ?Hk, ?String.eqb_refl; auto.
Qed.

Lemma own_snoc (props : list (string * value)) (k : string) (v : value) :
  own props k = None → own (props ++ [(k, v)]) k = Some v.
Proof.
  intros H. rewrite own_app, H. cbn [own]. by rewrite String.eqb_refl.
Qed.

(** An assignment under any key but [__proto__] can be read back. *)
Lemma own_obj_set (props : list (string * value)) (k : string) (v : value) :
  k ≠ "__proto__" → own (obj_set props k v) k = Some v.
Proof.
  intros Hk. unfold obj_set. apply String.eqb_neq in Hk. rewrite Hk.
  destruct (has_own props k) eqn:Hown; [by apply own_replace_own|].
  assert (own props k = None) as Hnone.
  { unfold has_own in Hown. by destruct (own props k). }
  destruct (array_index k); [by apply own_insert_index | by apply own_snoc].
Qed.

(** One configured label stores at most one value: that of its first
    matching entry, or nothing when no entry matches. *)
Lemma map_fields_first_match (targetLabel ghlKey : string) (fm : list (string * string))
  (responses : value) (fields : list (string * value))
  (before after : list value) (entry rawValue finalValue : value) (l : string) :
  enum_values responses = before ++ entry :: after →
  Forall (passes_over targetLabel) before →
  label_of entry = VStr l →
  normalizeLabel l = normalizeLabel targetLabel →
  get entry "value" = Ok rawValue →
  normalizeDropdownValue rawValue = Ok finalValue →
  map_fields ((targetLabel, ghlKey) :: fm) responses fields
  = map_fields fm responses (obj_set fields ghlKey finalValue).
Proof.
  intros Henum Hbefore Hl Heq Hraw Hfin. cbn [map_fields]. rewrite Henum.
  by rewrite (scan_responses_first_match _ _ _ _ _ _ _ Hbefore Hl Heq Hraw Hfin).
Qed.

Lemma map_fields_no_match (targetLabel ghlKey : string) (fm : list (string * string))
  (responses : value) (fields : list (string * value)) :
  Forall (passes_over targetLabel) (enum_values responses) →
  map_fields ((targetLabel, ghlKey) :: fm) responses fields
  = map_fields fm responses fields.
Proof.
  intros H. cbn [map_fields]. by rewrite (scan_responses_no_match _ _ H).
Qed.

(** C6. A response entry whose label is a number makes the field mapper
    throw while it scans for a configured label that matches no entry: the
    label is not skipped, and the request is answered 500. *)
Theorem extractCustomFields_numeric_label_throws :
  fieldMap env_sample = [("what's your role", "contact.role")]
  ∧ (∃ msg : string,
       extractCustomFields env_sample payload_numeric_label = Throw (TypeError msg))
  ∧ status (fst (lunacal parse_braces sample_dates crm_empty_object
                   env_sample booking_numeric_label)) = 500
  ∧ snd (lunacal parse_braces sample_dates crm_empty_object
           env_sample booking_numeric_label) = [].
Proof.
  split; [reflexivity|]. split; [by eexists|]. split; vm_compute; reflexivity.
Qed.

Lemma label_of_text (entry : value) (l : string) :
  opt entry "label" = VStr l → label_of entry = VStr l.
Proof.
  intros H. unfold label_of, or_. rewrite H. cbn [truthy].
  destruct (String.eqb l EmptyString) eqn:He; [|done].
  apply String.eqb_eq in He. by subst l.
Qed.

(** The scan sees an entry only through its cleaned-up label and its value. *)
Lemma scan_responses_relabel (targetLabel : string) (before after : list value)
  (entry1 entry2 : value) (l1 l2 : string) :
  label_of entry1 = VStr l1 → label_of entry2 = VStr l2 →
  normalizeLabel l1 = normalizeLabel l2 →
  get entry1 "value" = get entry2 "value" →
  scan_responses targetLabel (before ++ entry1 :: after)
  = scan_responses targetLabel (before ++ entry2 :: after).
Proof.
  intros H1 H2 Heq Hval. induction before as [|entry before IH].
  - cbn [app]. rewrite (scan_responses_cons _ _ _ _ H1), (scan_responses_cons _ _ _ _ H2).
    by rewrite Heq, Hval.
  - cbn [app scan_responses]. by rewrite IH.
Qed.

Lemma map_fields_relabel (fm : list (string * string)) (fields : list (string * value))
  (before after : list (string * value)) (k : string) (entry1 entry2 : value)
  (l1 l2 : string) :
  label_of entry1 = VStr l1 → label_of entry2 = VStr l2 →
  normalizeLabel l1 = normalizeLabel l2 →
  get entry1 "value" = get entry2 "value" →
  map_fields fm (VObj (before ++ (k, entry1) :: after)) fields
  = map_fields fm (VObj (before ++ (k, entry2) :: after)) fields.
Proof.
  intros H1 H2 Heq Hval. revert fields.
  induction fm as [|[targetLabel ghlKey] fm IH]; intros fields; [done|].
  cbn [map_fields enum_values]. rewrite !List.map_app. cbn [List.map snd].
  rewrite (scan_responses_relabel _ _ _ _ _ _ _ H1 H2 Heq Hval).
  destruct (scan_responses _ _) as [found|err]; [|done].
  rewrite !bind_Ok. apply IH.
Qed.

(** C5. Two response-entry labels that agree after trimming, lower-casing,
    stripping what is neither word character nor white space, and
    collapsing runs of white space, in this order, are interchangeable: the
    field mapper returns the same mapping whichever of them the entry
    carries. The three spellings of the role question agree in this way. *)
Theorem label_matching_invariant (e : env) (payload1 payload2 : value)
  (before after : list (string * value)) (k : string) (entry1 entry2 : value)
  (l1 l2 : string) :
  opt payload1 "responses" = VObj (before ++ (k, entry1) :: after) →
  opt payload2 "responses" = VObj (before ++ (k, entry2) :: after) →
  opt entry1 "label" = VStr l1 →
  opt entry2 "label" = VStr l2 →
  get entry1 "value" = get entry2 "value" →
  normalizeLabel l1 = normalizeLabel l2 →
  extractCustomFields e payload1 = extractCustomFields e payload2
  ∧ normalizeLabel "What's Your Role?" = normalizeLabel "whats your role"
  ∧ normalizeLabel "What's   Your Role" = normalizeLabel "whats your role".
Proof.
  intros Hp1 Hp2 H1 H2 Hval Heq. split; [|split; vm_compute; reflexivity].
  unfold extractCustomFields. rewrite Hp1, Hp2. unfold or_. cbn [truthy].
  eapply map_fields_relabel; eauto using label_of_text.
Qed.

Lemma label_matching_invariant_witness :
  normalizeLabel "What's Your Role?" = normalizeLabel "whats your role"
  ∧ extractCustomFields env_sample (payload_with_label "What's Your Role?")
    = extractCustomFields env_sample (payload_with_label "whats your role")
  ∧ extractCustomFields env_sample (payload_with_label "whats your role")
    = Ok [("contact.role", VStr "CEO / Founder")].
Proof.
  split; [vm_compute; reflexivity|]. split; [|vm_compute; reflexivity].
  apply (label_matching_invariant env_sample
           (payload_with_label "What's Your Role?")
           (payload_with_label "whats your role")
           [] [] "q1"
           (VObj [("label", VStr "What's Your Role?"); ("value", VStr "ceo/founder")])
           (VObj [("label", VStr "whats your role"); ("value", VStr "ceo/founder")])
           "What's Your Role?" "whats your role");
    [reflexivity | reflexivity | reflexivity | reflexivity | reflexivity
    | vm_compute; reflexivity].
Defined.

(** The two labels have the same form under the clean-up as the
    specification words it, yet only the one with the trailing blank is
    matched against the configured label. *)
Lemma label_matching_depends_on_trim_order :
  fieldMap env_sample = [("what's your role", "contact.role")]
  ∧ spec_label_form "What's your role ?" = spec_label_form "What's your role "
  ∧ extractCustomFields env_sample payload_role_spaced_mark = Ok []
  ∧ extractCustomFields env_sample payload_role_trailing_blank
    = Ok [("contact.role", VStr "Other")].
Proof. repeat (split; [vm_compute; reflexivity|]). vm_compute. reflexivity. Qed.

(** ** Execution *)

Lemma contactIdOf_missing (resp : value) :
  truthy (opt (opt resp "contact") "id") = false →
  truthy (opt resp "contactId") = false →
  truthy (opt resp "id") = false →
  contactIdOf resp = VNull.
Proof. intros H1 H2 H3. unfold contactIdOf, or_. by rewrite H1, H2, H3. Qed.

Section Execution.

Variable JSON_parse : string → option value.
Variable fetch : list outbound → outbound → fetch_outcome.

(** A successful upsert response without contact id makes [upsertContact]
    return null; nothing is thrown. *)
Lemma upsertContact_without_contact_id (e : env) (a : Attendee)
  (customFields : list (string * value)) (tr : list outbound)
  (body : value) (st : Z) (text : string) :
  upsertBody e a customFields = Ok body →
  fetch tr (ghlCall e "/contacts/upsert" "POST" body) = Responded st text →
  ok_status st = true →
  contactIdOf (parsedBody JSON_parse text) = VNull →
  upsertContact JSON_parse fetch e a customFields tr
  = (Ok VNull, tr ++ [ghlCall e "/contacts/upsert" "POST" body]).
Proof.
  intros Hbody Hfetch Hok Hid. unfold upsertContact, mbind, M_bind, lift.
  rewrite Hbody, (ghlRequest_responded _ _ _ _ _ _ _ _ _ Hfetch), Hok, Hid.
  reflexivity.
Qed.

Lemma ghlRequest_calls (e : env) (path method : string) (body : value)
  (tr : list outbound) :
  snd (ghlRequest JSON_parse fetch e path method body tr)
  = tr ++ [ghlCall e path method body].
Proof.
  unfold ghlRequest. destruct (fetch tr _) as [st text|msg]; [|done].
  by destruct (ok_status st).
Qed.

Lemma appointmentBody_null_contact (e : env)
  (startTime endTime title calendarId assignedUserId body : value) :
  appointmentBody e VNull startTime endTime title calendarId assignedUserId = Ok body →
  member body "contactId" = VStr "null".
Proof.
  unfold appointmentBody. change (toString VNull) with (Ok (A:=string) "null").
  rewrite bind_Ok.
  destruct (toString (or_ title _)) as [ttl|]; [rewrite bind_Ok | done].
  destruct (toString startTime) as [st|]; [rewrite bind_Ok | done].
  destruct (toString endTime) as [en|]; [rewrite bind_Ok | done].
  by intros [= <-].
Qed.

Variable Date_toISOString : value → option string.

(** Whenever a request is complete and the upsert response is successful
    but carries no contact id, the handler goes on to call the appointment
    endpoint, with the text [null] as contact id. *)
Lemma lunacal_proceeds_without_contact_id (e : env) (body : value) (t : string)
  (x : extraction) (upsert appointment : value) (st : Z) (text : string) :
  configured e = true → triggerEventOf body = Ok t → is_ping t = false →
  extract_all Date_toISOString e (payloadOf body) = Ok x →
  missing_required x = false →
  upsertBody e (x_attendee x) (x_customFields x) = Ok upsert →
  fetch [] (ghlCall e "/contacts/upsert" "POST" upsert) = Responded st text →
  ok_status st = true →
  contactIdOf (parsedBody JSON_parse text) = VNull →
  appointmentBody e VNull (x_startTime x) (x_endTime x) (VStr (x_title x))
    (x_calendarId x) (x_userId x) = Ok appointment →
  snd (lunacal JSON_parse Date_toISOString fetch e body)
  = [ghlCall e "/contacts/upsert" "POST" upsert;
     ghlCall e "/calendars/events/appointments" "POST" appointment]
  ∧ member appointment "contactId" = VStr "null".
Proof.
  intros Hc Ht Hp Hx Hm Hup Hfetch Hok Hid Happ.
  split; [|by eapply appointmentBody_null_contact].
  unfold lunacal, lunacal_try. rewrite Hc. cbn [negb].
  unfold mbind, M_bind, lift. rewrite Ht, Hp, Hx, Hm.
  rewrite (upsertContact_without_contact_id _ _ _ _ _ _ _ Hup Hfetch Hok Hid).
  unfold createAppointment, mbind, M_bind, lift. rewrite Happ.
  pose proof (ghlRequest_calls e "/calendars/events/appointments" "POST" appointment
                ([] ++ [ghlCall e "/contacts/upsert" "POST" upsert])) as Hcalls.
  destruct (ghlRequest _ _ _ _ _ _ _) as [[resp|err] calls]; exact Hcalls.
Qed.

End Execution.

(** C1. When the CRM answers the upsert with 200 and an empty object,
    [upsertContact] returns null instead of failing, and the handler goes
    on to create the appointment, for the contact id [null], and answers
    200. *)
Theorem missing_contact_id_still_creates_appointment :
  contactIdOf (parsedBody parse_braces "{}") = VNull
  ∧ fst (upsertContact parse_braces crm_empty_object env_sample
           {| name := VStr "Jo"; email := VStr "jo@x.com"; phone := VNull |} [] [])
    = Ok VNull
  ∧ status (fst (lunacal parse_braces sample_dates crm_empty_object
                   env_sample booking_body)) = 200
  ∧ List.map url (snd (lunacal parse_braces sample_dates crm_empty_object
                         env_sample booking_body))
    = ["https://services.leadconnectorhq.com/contacts/upsert";
       "https://services.leadconnectorhq.com/calendars/events/appointments"]
  ∧ List.map (λ c, member (sent c) "contactId")
      (snd (lunacal parse_braces sample_dates crm_empty_object env_sample booking_body))
    = [VUndef; VStr "null"].
Proof.
  split; [reflexivity|]. split; [reflexivity|].
  split; [vm_compute; reflexivity|]. split; vm_compute; reflexivity.
Qed.

(** * Further properties *)

(** ** Trimming, case and splitting *)

Lemma is_ws_lower_char (c : ascii) : Str.is_ws (Str.lower_char c) = Str.is_ws c.
Proof. destruct c as [[] [] [] [] [] [] [] []]; reflexivity. Qed.

Lemma lower_char_idem (c : ascii) :
  Str.lower_char (Str.lower_char c) = Str.lower_char c.
Proof. destruct c as [[] [] [] [] [] [] [] []]; reflexivity. Qed.

Lemma toLowerCase_idem (s : string) :
  Str.toLowerCase (Str.toLowerCase s) = Str.toLowerCase s.
Proof.
  unfold Str.toLowerCase. induction s as [|c s IH]; cbn [Str.map]; [done|].
  by rewrite lower_char_idem, IH.
Qed.

Lemma trimStart_toLowerCase (s : string) :
  Str.trimStart (Str.toLowerCase s) = Str.toLowerCase (Str.trimStart s).
Proof.
  unfold Str.toLowerCase. induction s as [|c s IH]; cbn [Str.map Str.trimStart]; [done|].
  rewrite is_ws_lower_char. by destruct (Str.is_ws c).
Qed.

Lemma trimEnd_toLowerCase (s : string) :
  Str.trimEnd (Str.toLowerCase s) = Str.toLowerCase (Str.trimEnd s).
Proof.
  unfold Str.toLowerCase. induction s as [|c s IH]; cbn [Str.map Str.trimEnd]; [done|].
  rewrite IH, is_ws_lower_char.
  destruct (Str.trimEnd s); cbn [Str.map]; by destruct (Str.is_ws c).
Qed.

Lemma trim_toLowerCase (s : string) :
  Str.trim (Str.toLowerCase s) = Str.toLowerCase (Str.trim s).
Proof. unfold Str.trim. by rewrite trimStart_toLowerCase, trimEnd_toLowerCase. Qed.

Lemma trimEnd_cons_nonws (c : ascii) (s : string) :
  Str.is_ws c = false → Str.trimEnd (String c s) = String c (Str.trimEnd s).
Proof. intros H. cbn [Str.trimEnd]. rewrite H. by destruct (Str.trimEnd s). Qed.

Lemma trimEnd_idem (s : string) : Str.trimEnd (Str.trimEnd s) = Str.trimEnd s.
Proof.
  induction s as [|c s IH]; [done|]. cbn [Str.trimEnd].
  destruct (Str.trimEnd s) as [|d t] eqn:Ht.
  - destruct (Str.is_ws c) eqn:Hc; [done|]. cbn [Str.trimEnd]. by rewrite Hc.
  - cbn [Str.trimEnd]. cbn [Str.trimEnd] in IH. by rewrite IH.
Qed.

Lemma trimStart_fixed (s : string) :
  match s with
  | EmptyString => True
  | String c _ => Str.is_ws c = false
  end → Str.trimStart s = s.
Proof. destruct s as [|c s]; [done|]. intros H. cbn [Str.trimStart]. by rewrite H. Qed.

Lemma trimStart_head (s : string) :
  match Str.trimStart s with
  | EmptyString => True
  | String c _ => Str.is_ws c = false
  end.
Proof.
  induction s as [|c s IH]; [done|]. cbn [Str.trimStart].
  by destruct (Str.is_ws c) eqn:Hc.
Qed.

Lemma trimEnd_head (s : string) :
  match s with
  | EmptyString => True
  | String c _ => Str.is_ws c = false
  end →
  match Str.trimEnd s with
  | EmptyString => True
  | String c _ => Str.is_ws c = false
  end.
Proof.
  destruct s as [|c s]; [done|]. intros H. by rewrite (trimEnd_cons_nonws _ _ H).
Qed.

Lemma trim_idem (s : string) : Str.trim (Str.trim s) = Str.trim s.
Proof.
  unfold Str.trim.
  rewrite (trimStart_fixed (Str.trimEnd (Str.trimStart s))).
  - apply trimEnd_idem.
  - apply trimEnd_head, trimStart_head.
Qed.

Lemma split_nonempty (sep : ascii) (s : string) : Str.split sep s ≠ [].
Proof.
  induction s as [|c s IH]; cbn [Str.split]; [done|].
  destruct (Ascii.eqb c sep); [done|]. by destruct (Str.split sep s).
Qed.

Lemma split_plain (sep : ascii) (s : string) :
  has_char sep s = false → Str.split sep s = [s].
Proof.
  induction s as [|c s IH]; cbn [Str.split has_char]; [done|].
  intros H. apply orb_false_iff in H as [Hc Hs]. by rewrite Hc, (IH Hs).
Qed.

Lemma append_nil_l (b : string) : EmptyString +:+ b = b.
Proof. reflexivity. Qed.

Lemma append_cons (d : ascii) (a b : string) : String d a +:+ b = String d (a +:+ b).
Proof. reflexivity. Qed.

Lemma split_app (sep : ascii) (a b : string) :
  Str.split sep (a +:+ String sep b) = Str.split sep a ++ Str.split sep b.
Proof.
  induction a as [|c a IH].
  - rewrite append_nil_l. cbn [Str.split]. by rewrite Ascii.eqb_refl.
  - rewrite append_cons. cbn [Str.split].
    destruct (Ascii.eqb c sep); [by rewrite IH|].
    rewrite IH. pose proof (split_nonempty sep a). by destruct (Str.split sep a).
Qed.

Lemma append_assoc (a b c : string) : (a +:+ b) +:+ c = a +:+ b +:+ c.
Proof.
  induction a as [|d a IH]; [done|]. rewrite !append_cons. by rewrite IH.
Qed.

Lemma join_cons (sep x y : string) (rest : list string) :
  Str.join sep (x :: y :: rest) = x +:+ sep +:+ Str.join sep (y :: rest).
Proof. reflexivity. Qed.

Lemma join_snoc (sep : ascii) (items : list string) (item : string) :
  items ≠ [] →
  Str.join (String sep EmptyString) (items ++ [item])
  = Str.join (String sep EmptyString) items +:+ String sep item.
Proof.
  induction items as [|x items IH]; [done|]. intros _.
  destruct items as [|y items]; [done|].
  change ((x :: y :: items) ++ [item]) with (x :: y :: (items ++ [item])).
  rewrite !join_cons.
  change (y :: items ++ [item]) with ((y :: items) ++ [item]).
  rewrite IH by done. by rewrite !append_assoc.
Qed.

(** ** The configuration maps *)

Lemma has_char_app (c : ascii) (a b : string) :
  has_char c (a +:+ b) = (has_char c a || has_char c b)%bool.
Proof.
  induction a as [|d a IH]; [done|]. rewrite append_cons. cbn [has_char].
  by rewrite IH, orb_assoc.
Qed.

Lemma split_join (sep : ascii) (l : list string) :
  l ≠ [] → Forall (λ s, has_char sep s = false) l →
  Str.split sep (Str.join (String sep EmptyString) l) = l.
Proof.
  induction l as [|x l IH]; [done|]. intros _ Hall.
  apply Forall_cons in Hall as [Hx Hl].
  destruct l as [|y l]; [by apply split_plain|].
  rewrite join_cons.
  change (x +:+ String sep EmptyString +:+ Str.join (String sep EmptyString) (y :: l))
    with (x +:+ String sep (Str.join (String sep EmptyString) (y :: l))).
  rewrite split_app, (split_plain _ _ Hx), IH by done. done.
Qed.

Lemma toLowerCase_empty (s : string) :
  Str.toLowerCase s = EmptyString → s = EmptyString.
Proof. by destruct s. Qed.

Lemma calendarMap_item_normalised (m : gmap string CalendarRoute) (item : string) :
  map_Forall normalised_route m → map_Forall normalised_route (calendarMap_item m item).
Proof.
  intros Hm. unfold calendarMap_item.
  destruct (Str.split ":" item !! 1%nat) as [c|]; cbn [fmap option_fmap option_map]; [|done].
  destruct (nonempty _ && nonempty (Str.trim c))%bool eqn:Hne; [|done].
  apply andb_true_iff in Hne as [Hk Hc]. apply nonempty_true in Hk, Hc.
  apply map_Forall_insert_2; [|done].
  repeat split; cbn [calId userId]; try done.
  - apply toLowerCase_idem.
  - by rewrite trim_toLowerCase, trim_idem.
  - apply trim_idem.
  - intros u Hu. destruct (Str.split ":" item !! 2%nat) as [u'|]; [|done].
    injection Hu as <-. apply trim_idem.
Qed.

Lemma calendarMap_fold_normalised (items : list string) (m : gmap string CalendarRoute) :
  map_Forall normalised_route m →
  map_Forall normalised_route (fold_left calendarMap_item items m).
Proof.
  revert m. induction items as [|item items IH]; intros m Hm; [done|].
  by apply IH, calendarMap_item_normalised.
Qed.

(** X1. Every entry of the calendar-route map has a non-empty, trimmed,
    lower-case email as key, a non-empty trimmed calendar id, and a trimmed
    user id when it has one. *)
Theorem calendarMap_entries_normalised (e : env) (k : string) (r : CalendarRoute) :
  calendarMap e !! k = Some r →
  k ≠ EmptyString ∧ Str.toLowerCase k = k ∧ Str.trim k = k
  ∧ calId r ≠ EmptyString ∧ Str.trim (calId r) = calId r
  ∧ ∀ u : string, userId r = Some u → Str.trim u = u.
Proof.
  intros Hk.
  assert (map_Forall normalised_route (calendarMap e)) as Hall.
  { unfold calendarMap. destruct (nonempty _).
    - apply calendarMap_fold_normalised, map_Forall_empty.
    - apply map_Forall_empty. }
  exact (Hall k r Hk).
Qed.

Lemma calendarMap_entries_normalised_witness :
  calendarMap env_sample !! "jane@acme.com"
  = Some {| calId := "cal_1"; userId := Some "user_7" |}
  ∧ Str.toLowerCase "jane@acme.com" = "jane@acme.com"
  ∧ Str.trim "cal_1" = "cal_1".
Proof.
  assert (calendarMap env_sample !! "jane@acme.com"
          = Some {| calId := "cal_1"; userId := Some "user_7" |}) as H
    by (vm_compute; reflexivity).
  split; [exact H|].
  destruct (calendarMap_entries_normalised env_sample _ _ H) as (_ & Hl & _ & _ & Hc & _).
  split; [exact Hl | exact Hc].
Defined.

Lemma calendarMap_item_triple (m : gmap string CalendarRoute) (email cal user : string) :
  plain_field email = true → plain_field cal = true → plain_field user = true →
  Str.trim email ≠ EmptyString → Str.trim cal ≠ EmptyString →
  calendarMap_item m (email +:+ ":" +:+ cal +:+ ":" +:+ user)
  = <[Str.toLowerCase (Str.trim email) :=
        {| calId := Str.trim cal; userId := Some (Str.trim user) |}]> m.
Proof.
  unfold plain_field. rewrite !andb_true_iff, !negb_true_iff.
  intros [_ He] [_ Hc] [_ Hu] Hne Hnc. unfold calendarMap_item.
  change (email +:+ ":" +:+ cal +:+ ":" +:+ user)
    with (email +:+ String ":" (cal +:+ String ":" user)).
  rewrite !split_app, (split_plain _ _ He), (split_plain _ _ Hc), (split_plain _ _ Hu).
  cbn [app hd lookup list_lookup fmap option_fmap option_map].
  assert (nonempty (Str.toLowerCase (Str.trim email)) = true) as ->.
  { apply nonempty_true. intros H. by apply toLowerCase_empty in H. }
  assert (nonempty (Str.trim cal) = true) as -> by by apply nonempty_true.
  reflexivity.
Qed.

(** X2. The last item of [CALENDAR_MAPPING] decides: when the table is a
    comma-separated list ending with [email:cal:user], whose fields hold
    no separator and whose email and calendar id are not blank, the map
    sends the trimmed, lower-cased email to the trimmed calendar and user
    ids; and every organizer address equal to that email up to letter
    case in which the text [suraj.kumar@digitalwebsolutions] does not
    occur (such an address is left alone by the domain correction) is
    routed to them. *)
Theorem calendarMap_last_item_wins (e : env) (items : list string)
  (email cal user : string) :
  CALENDAR_MAPPING e
  = Str.join "," (items ++ [email +:+ ":" +:+ cal +:+ ":" +:+ user]) →
  Forall (λ s, has_char "," s = false) items →
  plain_field email = true → plain_field cal = true → plain_field user = true →
  Str.trim email ≠ EmptyString → Str.trim cal ≠ EmptyString →
  calendarMap e !! Str.toLowerCase (Str.trim email)
  = Some {| calId := Str.trim cal; userId := Some (Str.trim user) |}
  ∧ ∀ organizer : string,
      Str.toLowerCase organizer = Str.toLowerCase (Str.trim email) →
      ¬ occurs_in "suraj.kumar@digitalwebsolutions" (Str.toLowerCase organizer) →
      resolveRoute e (Str.toLowerCase organizer)
      = (VStr (Str.trim cal), VStr (Str.trim user)).
Proof.
  intros Hmap Hitems He Hc Hu Hne Hnc.
  set (item := email +:+ ":" +:+ cal +:+ ":" +:+ user) in *.
  assert (has_char "," item = false) as Hitem.
  { unfold item, plain_field in *.
    apply andb_true_iff in He as [He _], Hc as [Hc _], Hu as [Hu _].
    apply negb_true_iff in He, Hc, Hu.
    by rewrite !has_char_app, He, Hc, Hu. }
  assert (Str.split "," (CALENDAR_MAPPING e) = items ++ [item]) as Hsplit.
  { rewrite Hmap. apply split_join; [by destruct items|].
    apply Forall_app. split; [done | by constructor]. }
  assert (calendarMap e !! Str.toLowerCase (Str.trim email)
          = Some {| calId := Str.trim cal; userId := Some (Str.trim user) |}) as Hlook.
  { unfold calendarMap. destruct (nonempty (CALENDAR_MAPPING e)) eqn:Hnon.
    - rewrite Hsplit, fold_left_app. cbn [fold_left].
      unfold item. rewrite calendarMap_item_triple by done.
      apply lookup_insert_eq.
    - apply nonempty_false in Hnon. rewrite Hnon in Hsplit.
      destruct items as [|x [|y items]]; try discriminate Hsplit.
      injection Hsplit as Hempty. unfold item in Hempty.
      destruct email; discriminate Hempty. }
  split; [exact Hlook|]. intros organizer Horg Hneedle.
  rewrite resolveRoute_lookup, (correctOrganizerEmail_miss _ Hneedle).
  unfold lookupRoute. by rewrite Horg, Hlook.
Qed.

Lemma calendarMap_last_item_wins_witness :
  CALENDAR_MAPPING env_sample
  = Str.join "," ([] ++ ["jane@acme.com" +:+ ":" +:+ "cal_1" +:+ ":" +:+ "user_7"])
  ∧ ¬ occurs_in "suraj.kumar@digitalwebsolutions" (Str.toLowerCase "Jane@ACME.com")
  ∧ resolveRoute env_sample (Str.toLowerCase "Jane@ACME.com")
    = (VStr "cal_1", VStr "user_7").
Proof.
  assert (¬ occurs_in "suraj.kumar@digitalwebsolutions" (Str.toLowerCase "Jane@ACME.com"))
    as Hneedle.
  { apply includes_false. vm_compute. reflexivity. }
  split; [reflexivity | split; [exact Hneedle|]].
  refine (proj2 (calendarMap_last_item_wins env_sample [] "jane@acme.com" "cal_1"
                   "user_7" eq_refl _ eq_refl eq_refl eq_refl _ _)
            "Jane@ACME.com" _ Hneedle).
  - constructor.
  - discriminate.
  - discriminate.
  - vm_compute. reflexivity.
Defined.

Lemma map_set_keys_in (m : list (string * string)) (k v x : string) :
  x ∈ (map_set m k v).*1 → x = k ∨ x ∈ m.*1.
Proof.
  induction m as [|[k' v'] m IH]; cbn [map_set].
  - intros H. apply list_elem_of_singleton in H. by left.
  - destruct (String.eqb k' k); cbn [fmap list_fmap fst]; [by right|].
    intros H. apply elem_of_cons in H as [-> | H].
    + right. apply elem_of_cons. by left.
    + destruct (IH H) as [-> | Hin]; [by left|]. right. apply elem_of_cons. by right.
Qed.

Lemma map_set_NoDup (m : list (string * string)) (k v : string) :
  NoDup m.*1 → NoDup (map_set m k v).*1.
Proof.
  induction m as [|[k' v'] m IH]; cbn [map_set].
  - intros _. apply NoDup_singleton.
  - destruct (String.eqb k' k) eqn:Hk; cbn [fmap list_fmap fst]; [done|].
    intros Hnd. apply NoDup_cons in Hnd as [Hnotin Hnd].
    apply NoDup_cons. split; [|by apply IH].
    intros Hin. apply map_set_keys_in in Hin as [-> | Hin]; [|done].
    by rewrite String.eqb_refl in Hk.
Qed.

Lemma map_set_Forall (P : string * string → Prop) (m : list (string * string))
  (k v : string) :
  (∀ k', k' = k → P (k', v)) → Forall P m → Forall P (map_set m k v).
Proof.
  intros Hkv. induction 1 as [|[k' v'] m Hx Hm IH]; cbn [map_set].
  - constructor; [by apply Hkv | constructor].
  - destruct (String.eqb k' k) eqn:Hk.
    + apply String.eqb_eq in Hk. constructor; [by apply Hkv | done].
    + by constructor.
Qed.

Lemma fieldMap_item_invariant (m : list (string * string)) (item : string) :
  NoDup m.*1 ∧ Forall normalised_field m →
  NoDup (fieldMap_item m item).*1 ∧ Forall normalised_field (fieldMap_item m item).
Proof.
  intros [Hnd Hall]. unfold fieldMap_item.
  destruct (Str.split ":" item) as [|label [|key rest]]; [done | done |].
  destruct (nonempty label && nonempty key)%bool; [|done].
  split; [by apply map_set_NoDup|].
  apply map_set_Forall; [|done].
  intros k' ->. unfold normalised_field. cbn [fst snd].
  by rewrite toLowerCase_idem, trim_toLowerCase, !trim_idem.
Qed.

(** X3. The labels of the field map are pairwise distinct, lower-case and
    trimmed, and the outbound keys are trimmed, whatever
    [CUSTOM_FIELD_MAPPING] holds. *)
Theorem fieldMap_labels_distinct_and_normalised (e : env) :
  NoDup (fieldMap e).*1
  ∧ Forall (λ kv, Str.toLowerCase kv.1 = kv.1 ∧ Str.trim kv.1 = kv.1
                  ∧ Str.trim kv.2 = kv.2) (fieldMap e).
Proof.
  unfold fieldMap. destruct (nonempty _); [|split; constructor].
  assert (∀ items m, NoDup m.*1 ∧ Forall normalised_field m →
            NoDup (fold_left fieldMap_item items m).*1
            ∧ Forall normalised_field (fold_left fieldMap_item items m)) as Hfold.
  { induction items as [|item items IH]; intros m Hm; [done|].
    by apply IH, fieldMap_item_invariant. }
  apply Hfold. split; constructor.
Qed.

(** ** The label clean-up *)

Lemma all_chars_filter (p q : ascii → bool) (s : string) :
  all_chars p s = true → all_chars p (Str.filter q s) = true.
Proof.
  induction s as [|c s IH]; cbn [all_chars Str.filter]; [done|].
  intros H. apply andb_true_iff in H as [Hc Hs].
  destruct (q c); cbn [all_chars]; [by rewrite Hc, IH | by apply IH].
Qed.

Lemma all_chars_filter_self (q : ascii → bool) (s : string) :
  all_chars q (Str.filter q s) = true.
Proof.
  induction s as [|c s IH]; cbn [all_chars Str.filter]; [done|].
  destruct (q c) eqn:Hc; cbn [all_chars]; [by rewrite Hc, IH | done].
Qed.

Lemma all_chars_and (p q : ascii → bool) (s : string) :
  all_chars p s = true → all_chars q s = true →
  all_chars (λ c, (p c && q c)%bool) s = true.
Proof.
  induction s as [|c s IH]; cbn [all_chars]; [done|].
  intros Hp Hq. apply andb_true_iff in Hp as [-> Hp], Hq as [-> Hq].
  by rewrite IH.
Qed.

Lemma all_chars_toLowerCase (s : string) :
  all_chars (λ c, negb (Str.is_upper c)) (Str.toLowerCase s) = true.
Proof.
  unfold Str.toLowerCase. induction s as [|c s IH]; cbn [all_chars Str.map]; [done|].
  by rewrite lower_char_not_upper, IH.
Qed.

Lemma stripped_char_label (c : ascii) :
  stripped_char c = true → Str.is_ws c = false → label_char c = true.
Proof. destruct c as [[] [] [] [] [] [] [] []]; vm_compute; congruence. Qed.

Lemma nonws_not_blank (c : ascii) : Str.is_ws c = false → Ascii.eqb c " " = false.
Proof. destruct c as [[] [] [] [] [] [] [] []]; vm_compute; congruence. Qed.

Lemma collapse_from_chars (b : bool) (s : string) :
  all_chars stripped_char s = true →
  all_chars label_char (Str.collapse_from b s) = true.
Proof.
  revert b. induction s as [|c s IH]; intros b; cbn [all_chars Str.collapse_from]; [done|].
  intros H. apply andb_true_iff in H as [Hc Hs].
  destruct (Str.is_ws c) eqn:Hws.
  - destruct b; cbn [all_chars]; [by apply IH|]. by rewrite IH.
  - cbn [all_chars]. by rewrite (stripped_char_label _ Hc Hws), IH.
Qed.

Lemma single_blanks_cons (a b : ascii) (s : string) :
  single_blanks (String a (String b s))
  = (negb (Ascii.eqb a " " && Ascii.eqb b " ") && single_blanks (String b s))%bool.
Proof. reflexivity. Qed.

Lemma collapse_from_blanks (b : bool) (s : string) :
  single_blanks (Str.collapse_from b s) = true
  ∧ (b = true → starts_blank (Str.collapse_from b s) = false).
Proof.
  revert b. induction s as [|c s IH]; intros b; cbn [Str.collapse_from]; [done|].
  destruct (Str.is_ws c) eqn:Hws.
  - destruct b; [apply IH|]. split; [|done].
    destruct (IH true) as [Hs Hb]. specialize (Hb eq_refl).
    destruct (Str.collapse_from true s) as [|d r]; [done|].
    rewrite single_blanks_cons, Hs. cbn [starts_blank] in Hb. by rewrite Hb.
  - pose proof (nonws_not_blank _ Hws) as Hc. split; [|done].
    destruct (IH false) as [Hs _].
    destruct (Str.collapse_from false s) as [|d r]; [done|].
    by rewrite single_blanks_cons, Hs, Hc.
Qed.

(** X4. A cleaned-up label consists of lower-case letters, digits,
    underscores and blanks only, and holds no two blanks in a row. *)
Theorem normalizeLabel_shape (s : string) :
  all_chars label_char (normalizeLabel s) = true
  ∧ single_blanks (normalizeLabel s) = true.
Proof.
  unfold normalizeLabel, Str.collapse_ws. split; [|apply collapse_from_blanks].
  apply collapse_from_chars. unfold Str.strip_punct, stripped_char.
  apply all_chars_and.
  - apply all_chars_filter, all_chars_toLowerCase.
  - apply all_chars_filter_self.
Qed.

(** X5. The label clean-up ignores letter case: two labels with the same
    lower-case form clean up to the same text. *)
Theorem normalizeLabel_ignores_case (s t : string) :
  Str.toLowerCase s = Str.toLowerCase t → normalizeLabel s = normalizeLabel t.
Proof.
  intros H. unfold normalizeLabel. by rewrite <- !trim_toLowerCase, H.
Qed.

Lemma normalizeLabel_ignores_case_witness :
  Str.toLowerCase "WHAT'S your Role?" = Str.toLowerCase "what's YOUR role?"
  ∧ normalizeLabel "WHAT'S your Role?" = normalizeLabel "what's YOUR role?".
Proof.
  assert (Str.toLowerCase "WHAT'S your Role?" = Str.toLowerCase "what's YOUR role?")
    as H by (vm_compute; reflexivity).
  split; [exact H | exact (normalizeLabel_ignores_case _ _ H)].
Defined.

(** ** More on the value normalizer *)

Lemma own_Forall (Q : value → Prop) (props : list (string * value)) (k : string)
  (v : value) :
  Forall (λ kv, Q kv.2) props → own props k = Some v → Q v.
Proof.
  induction 1 as [|[k' v'] props Hkv _ IH]; cbn [own]; [done|].
  destruct (String.eqb k' k); [|exact IH]. by intros [= <-].
Qed.

(** Every canonical spelling is accepted as it is. *)
Lemma roleOptions_fixed :
  Forall (λ kv, normalizeDropdownValue kv.2 = Ok kv.2) roleOptions.
Proof. repeat constructor; vm_compute; reflexivity. Qed.

Lemma budgetOptions_fixed :
  Forall (λ kv, normalizeDropdownValue kv.2 = Ok kv.2) budgetOptions.
Proof. repeat constructor; vm_compute; reflexivity. Qed.

Lemma normalizeDropdownValue_via_trim (s : string) :
  normalizeDropdownValue (VStr s) = normalizeDropdownValue (VStr (Str.trim s)).
Proof.
  destruct (String.eqb s EmptyString) eqn:Hs.
  { apply String.eqb_eq in Hs. by subst s. }
  apply String.eqb_neq in Hs. rewrite (normalizeDropdownValue_string _ Hs).
  destruct (String.eqb (Str.trim s) EmptyString) eqn:Ht.
  - apply String.eqb_eq in Ht. by rewrite Ht.
  - apply String.eqb_neq in Ht.
    by rewrite (normalizeDropdownValue_string _ Ht), trim_idem.
Qed.

(** X6. Normalizing twice is normalizing once: what the normalizer
    returns for a string is returned unchanged when normalized again,
    unless the string cleans up to [constructor] or [__proto__]. *)
Theorem normalizeDropdownValue_idempotent (s : string) (r : value) :
  Str.toLowerCase (Str.trim s) ≠ "constructor" →
  Str.toLowerCase (Str.trim s) ≠ "__proto__" →
  normalizeDropdownValue (VStr s) = Ok r →
  normalizeDropdownValue r = Ok r.
Proof.
  intros Hc Hp Hr.
  destruct (String.eqb s EmptyString) eqn:Hs.
  { apply String.eqb_eq in Hs. subst s. by injection Hr as <-. }
  apply String.eqb_neq in Hs.
  pose proof Hr as Hr'. rewrite (normalizeDropdownValue_string _ Hs) in Hr'.
  apply String.eqb_neq in Hc, Hp. rewrite Hc, Hp in Hr'.
  destruct (own roleOptions _) as [c|] eqn:Hrole.
  { injection Hr' as <-.
    exact (own_Forall (λ v, normalizeDropdownValue v = Ok v) _ _ _
             roleOptions_fixed Hrole). }
  destruct (own budgetOptions _) as [c|] eqn:Hbudget.
  { injection Hr' as <-.
    exact (own_Forall (λ v, normalizeDropdownValue v = Ok v) _ _ _
             budgetOptions_fixed Hbudget). }
  injection Hr' as <-. by rewrite <- normalizeDropdownValue_via_trim.
Qed.

Lemma normalizeDropdownValue_idempotent_witness :
  normalizeDropdownValue (VStr "  ceo/founder ") = Ok (VStr "CEO / Founder")
  ∧ normalizeDropdownValue (VStr "CEO / Founder") = Ok (VStr "CEO / Founder").
Proof.
  assert (normalizeDropdownValue (VStr "  ceo/founder ") = Ok (VStr "CEO / Founder"))
    as H by (vm_compute; reflexivity).
  split; [exact H|].
  apply (normalizeDropdownValue_idempotent "  ceo/founder " _); [| | exact H].
  - vm_compute. discriminate.
  - vm_compute. discriminate.
Defined.

(** X7. White space around an answer never matters to the normalizer, and
    for a known synonym letter case does not matter either. *)
Theorem normalizeDropdownValue_ignores_blanks_and_case (s t : string) :
  (Str.trim s = Str.trim t →
   normalizeDropdownValue (VStr s) = normalizeDropdownValue (VStr t))
  ∧ (∀ c : value,
       Str.toLowerCase (Str.trim s) = Str.toLowerCase (Str.trim t) →
       own (roleOptions ++ budgetOptions) (Str.toLowerCase (Str.trim s)) = Some c →
       normalizeDropdownValue (VStr s) = Ok c ∧ normalizeDropdownValue (VStr t) = Ok c).
Proof.
  split.
  - intros H. by rewrite (normalizeDropdownValue_via_trim s),
                         (normalizeDropdownValue_via_trim t), H.
  - intros c Hkey Hown. split; apply normalizeDropdownValue_known; [done|].
    by rewrite <- Hkey.
Qed.

Lemma normalizeDropdownValue_ignores_blanks_and_case_witness :
  normalizeDropdownValue (VStr " Gardening  ") = normalizeDropdownValue (VStr "Gardening")
  ∧ normalizeDropdownValue (VStr "SEO manager ") = Ok (VStr "SEO Manager")
  ∧ normalizeDropdownValue (VStr " seo MANAGER") = Ok (VStr "SEO Manager").
Proof.
  split.
  - apply (proj1 (normalizeDropdownValue_ignores_blanks_and_case _ _)).
    vm_compute. reflexivity.
  - apply (proj2 (normalizeDropdownValue_ignores_blanks_and_case
                    "SEO manager " " seo MANAGER")); vm_compute; reflexivity.
Defined.

(** ** More on the field mapper *)

Lemma own_None_keys (props : list (string * value)) (k : string) :
  own props k = None → k ∉ props.*1.
Proof.
  induction props as [|[k' v'] props IH]; cbn [own fmap list_fmap fst].
  - intros _ H. by apply elem_of_nil in H.
  - destruct (String.eqb k' k) eqn:Hk; [done|]. intros Hnone Hin.
    apply elem_of_cons in Hin as [-> | Hin]; [|by apply IH].
    by rewrite String.eqb_refl in Hk.
Qed.

Lemma replace_own_keys (props : list (string * value)) (k : string) (v : value) :
  (replace_own props k v).*1 = props.*1.
Proof.
  induction props as [|[k' v'] props IH]; cbn [replace_own]; [done|].
  destruct (String.eqb k' k); cbn [fmap list_fmap fst]; [done|].
  cbn [fmap list_fmap] in IH. by rewrite IH.
Qed.

Lemma insert_index_keys (props : list (string * value)) (i : Z) (k : string) (v : value) :
  (insert_index props i k v).*1 ≡ₚ k :: props.*1.
Proof.
  induction props as [|[k' v'] props IH]; cbn [insert_index]; [done|].
  repeat case_match; try done.
  cbn [fmap list_fmap fst]. cbn [fmap list_fmap] in IH. rewrite IH. apply Permutation_swap.
Qed.

Lemma obj_set_keys (props : list (string * value)) (k : string) (v : value) :
  NoDup props.*1 →
  NoDup (obj_set props k v).*1
  ∧ (∀ x, x ∈ (obj_set props k v).*1 → x = k ∨ x ∈ props.*1)
  ∧ (length (obj_set props k v) ≤ S (length props))%nat.
Proof.
  intros Hnd. unfold obj_set.
  destruct (String.eqb k "__proto__"); [by auto|].
  destruct (has_own props k) eqn:Hown.
  { rewrite <- (length_fmap fst (replace_own props k v)), replace_own_keys, length_fmap.
    by auto. }
  assert (k ∉ props.*1) as Hnotin.
  { apply own_None_keys. unfold has_own in Hown. by destruct (own props k). }
  destruct (array_index k) as [i|].
  - pose proof (insert_index_keys props i k v) as Hperm.
    split; [|split].
    + rewrite Hperm. by apply NoDup_cons.
    + intros x Hx. rewrite Hperm in Hx. by apply elem_of_cons in Hx.
    + rewrite <- (length_fmap fst (insert_index props i k v)), Hperm. cbn [length].
      by rewrite length_fmap.
  - rewrite fmap_app. cbn [fmap list_fmap fst]. split; [|split].
    + apply NoDup_app. split; [done|]. split; [|apply NoDup_singleton].
      intros x Hx Hk. apply list_elem_of_singleton in Hk. by subst x.
    + intros x Hx. apply elem_of_app in Hx as [Hx | Hx]; [by right|].
      left. by apply list_elem_of_singleton in Hx.
    + rewrite length_app. cbn [length]. lia.
Qed.

Lemma map_fields_keys (fm : list (string * string)) (responses : value)
  (fields out : list (string * value)) :
  map_fields fm responses fields = Ok out →
  NoDup fields.*1 →
  NoDup out.*1
  ∧ (∀ x, x ∈ out.*1 → x ∈ fields.*1 ∨ x ∈ fm.*2)
  ∧ (length out ≤ length fields + length fm)%nat.
Proof.
  revert fields. induction fm as [|[targetLabel ghlKey] fm IH]; intros fields.
  - cbn [map_fields]. intros [= <-] Hnd. split; [done|]. split; [by auto | lia].
  - cbn [map_fields].
    destruct (scan_responses targetLabel (enum_values responses)) as [found|err];
      [rewrite bind_Ok | done].
    intros Hout Hnd. destruct found as [finalValue|].
    + destruct (obj_set_keys fields ghlKey finalValue Hnd) as (Hnd' & Hsub & Hlen).
      destruct (IH _ Hout Hnd') as (Hnd'' & Hsub' & Hlen').
      split; [done|]. split.
      * intros x Hx. destruct (Hsub' x Hx) as [Hin | Hin].
        -- destruct (Hsub x Hin) as [-> | Hf]; [|by left].
           right. cbn [fmap list_fmap snd]. apply elem_of_cons. by left.
        -- right. cbn [fmap list_fmap snd]. apply elem_of_cons. by right.
      * cbn [length]. lia.
    + destruct (IH _ Hout Hnd) as (Hnd'' & Hsub' & Hlen').
      split; [done|]. split.
      * intros x Hx. destruct (Hsub' x Hx) as [Hin | Hin]; [by left|].
        right. cbn [fmap list_fmap snd]. apply elem_of_cons. by right.
      * cbn [length]. lia.
Qed.

(** X8. Whatever the field mapper returns, its keys are pairwise distinct
    and each of them is a configured outbound key, and there are at most
    as many of them as configured labels. *)
Theorem extractCustomFields_keys_are_configured (e : env) (payload : value)
  (fields : list (string * value)) :
  extractCustomFields e payload = Ok fields →
  NoDup fields.*1
  ∧ (∀ k : string, k ∈ fields.*1 → k ∈ (fieldMap e).*2)
  ∧ (length fields ≤ length (fieldMap e))%nat.
Proof.
  intros H. unfold extractCustomFields in H.
  destruct (map_fields_keys _ _ _ _ H) as (Hnd & Hsub & Hlen); [constructor|].
  split; [done|]. split; [|exact Hlen].
  intros k Hk. destruct (Hsub k Hk) as [Hin | Hin]; [|done].
  by apply elem_of_nil in Hin.
Qed.

Lemma extractCustomFields_keys_are_configured_witness :
  extractCustomFields env_sample (payload_with_label "Whats your role")
  = Ok [("contact.role", VStr "CEO / Founder")]
  ∧ "contact.role" ∈ (fieldMap env_sample).*2.
Proof.
  assert (extractCustomFields env_sample (payload_with_label "Whats your role")
          = Ok [("contact.role", VStr "CEO / Founder")]) as H
    by (vm_compute; reflexivity).
  split; [exact H|].
  apply (proj1 (proj2 (extractCustomFields_keys_are_configured _ _ _ H))).
  apply elem_of_cons. by left.
Defined.

Lemma map_fields_no_entries (fm : list (string * string)) (responses : value)
  (fields : list (string * value)) :
  enum_values responses = [] → map_fields fm responses fields = Ok fields.
Proof.
  intros H. revert fields. induction fm as [|[targetLabel ghlKey] fm IH]; intros fields.
  - done.
  - cbn [map_fields]. rewrite H. cbn [scan_responses]. rewrite bind_Ok. apply IH.
Qed.

(** X9. A payload without response entries (no [responses] key, a null or
    otherwise falsy one, or an empty object) is mapped to the empty
    mapping, without error, whatever is configured. *)
Theorem extractCustomFields_without_responses (e : env) (payload : value) :
  truthy (opt payload "responses") = false ∨ opt payload "responses" = VObj [] →
  extractCustomFields e payload = Ok [].
Proof.
  intros H. unfold extractCustomFields. apply map_fields_no_entries.
  unfold or_. destruct H as [-> | ->]; reflexivity.
Qed.

Lemma extractCustomFields_without_responses_witness :
  truthy (opt booking_payload "responses") = false
  ∧ extractCustomFields env_sample booking_payload = Ok [].
Proof.
  assert (truthy (opt booking_payload "responses") = false) as H by reflexivity.
  split; [exact H|].
  apply extractCustomFields_without_responses. by left.
Defined.

(** ** The ways a request ends *)

Section OutcomeProperties.

Variable JSON_parse : string → option value.
Variable Date_toISOString : value → option string.
Variable fetch : list outbound → outbound → fetch_outcome.

Abbreviation handler := (lunacal JSON_parse Date_toISOString fetch).
Abbreviation outcome := (lunacal_outcome JSON_parse Date_toISOString fetch).

Lemma ghlRequest_eq (e : env) (path method : string) (body : value) (tr : list outbound) :
  ghlRequest JSON_parse fetch e path method body tr
  = (match fetch tr (ghlCall e path method body) with
     | Rejected msg => Throw (FetchError msg)
     | Responded st text =>
         if ok_status st then Ok (parsedBody JSON_parse text)
         else Throw (GhlError st (parsedBody JSON_parse text))
     end, tr ++ [ghlCall e path method body]).
Proof.
  unfold ghlRequest. destruct (fetch tr _) as [st text|msg]; [|done].
  by destruct (ok_status st).
Qed.

(** Every request ends in one of the seven ways. *)
Lemma lunacal_ends (e : env) (body : value) :
  outcome e body (fst (handler e body)) (snd (handler e body)).
Proof.
  unfold lunacal, lunacal_try.
  destruct (configured e) eqn:Hc; cbn [negb]; [|by apply out_unconfigured].
  unfold mbind, M_bind, mret, M_ret, lift.
  destruct (triggerEventOf body) as [t|err] eqn:Ht; [|by apply out_threw_before_crm].
  destruct (is_ping t) eqn:Hp; [by eapply out_ping|].
  destruct (extract_all Date_toISOString e (payloadOf body)) as [x|err] eqn:Hx;
    [|by apply out_threw_before_crm].
  destruct (missing_required x) eqn:Hm; [by eapply out_missing|].
  unfold upsertContact, mbind, M_bind, mret, M_ret, lift.
  destruct (upsertBody e (x_attendee x) (x_customFields x)) as [upsert|err] eqn:Hup;
    [|by apply out_threw_before_crm].
  rewrite ghlRequest_eq. cbn [app].
  destruct (fetch [] _) as [st1 text1|msg] eqn:Hf1; [|by eapply out_upsert_failed].
  destruct (ok_status st1) eqn:Hok1; [|by eapply out_upsert_failed].
  destruct (toString (contactIdOf (parsedBody JSON_parse text1))) as [cid|err] eqn:Hcid;
    [|by eapply out_upsert_failed].
  unfold createAppointment, mbind, M_bind, lift.
  destruct (appointmentBody e _ _ _ _ _ _) as [appointment|err] eqn:Hap;
    [|by eapply out_upsert_failed].
  rewrite ghlRequest_eq. cbn [app].
  destruct (fetch [_] _) as [st2 text2|msg] eqn:Hf2; [|by eapply out_appointment_failed].
  destruct (ok_status st2) eqn:Hok2; [|by eapply out_appointment_failed].
  by eapply out_synced.
Qed.

Ltac run_handler :=
  unfold lunacal, lunacal_try, upsertContact, createAppointment,
    mbind, M_bind, mret, M_ret, lift.

(** X10. The calls of a request are an initial part of the sequence
    upsert, appointment; each of them is a POST carrying the bearer token
    and the API version of the configuration. *)
Theorem lunacal_call_discipline (e : env) (body : value) :
  List.map url (snd (handler e body)) `prefix_of` [upsert_url; appointments_url]
  ∧ Forall (authenticated_post e) (snd (handler e body)).
Proof.
  destruct (lunacal_ends e body); split;
    try (by repeat constructor);
    try (by eexists [upsert_url; appointments_url]);
    try (by eexists [appointments_url]);
    try (by eexists []).
Qed.

(** X11. A response is 200, 400 or 500. A 400 is sent without any CRM
    call. A 200 is either the answer to a PING, sent without any CRM call,
    or the report of a sync, sent only after both CRM calls were answered
    with a status from 200 to 299; it then carries the contact id read
    from the first answer. *)
Theorem lunacal_status_and_calls (e : env) (body : value) :
  (status (fst (handler e body)) = 200 ∨ status (fst (handler e body)) = 400
   ∨ status (fst (handler e body)) = 500)
  ∧ (status (fst (handler e body)) = 400 → snd (handler e body) = [])
  ∧ (status (fst (handler e body)) = 200 →
     (fst (handler e body)
      = reply 200 [("ok", VBool true); ("message", VStr "Received PING.")]
      ∧ snd (handler e body) = [])
     ∨ ∃ (c1 c2 : outbound) (st1 st2 : Z) (text1 text2 : string),
         snd (handler e body) = [c1; c2]
         ∧ fetch [] c1 = Responded st1 text1 ∧ ok_status st1 = true
         ∧ fetch [c1] c2 = Responded st2 text2 ∧ ok_status st2 = true
         ∧ member (json (fst (handler e body))) "message" = VStr "Synced to GoHighLevel"
         ∧ member (json (fst (handler e body))) "contactId"
           = contactIdOf (parsedBody JSON_parse text1)).
Proof.
  destruct (lunacal_ends e body); cbn [status reply]; (split; [|split]);
    try (by auto); try discriminate.
  intros _. right. eexists _, _, st1, st2, text1, text2.
  repeat split; try eassumption; reflexivity.
Qed.

Lemma appointmentBody_contact (e : env)
  (contactId startTime endTime title calendarId assignedUserId body : value) :
  appointmentBody e contactId startTime endTime title calendarId assignedUserId = Ok body →
  ∃ cid : string, toString contactId = Ok cid.
Proof.
  unfold appointmentBody. destruct (toString contactId) as [cid|]; [by eexists | done].
Qed.

(** X12. The complete path: for a configured server and a request that is
    no PING, whose extraction yields every required field, if the CRM
    answers both calls with a status from 200 to 299, exactly the upsert and
    then the appointment call are made and the response is 200 with the
    contact id of the first answer and the [id] of the second. *)
Theorem lunacal_syncs (e : env) (body : value) (t : string) (x : extraction)
  (upsert appointment : value) (st1 st2 : Z) (text1 text2 : string) :
  configured e = true → triggerEventOf body = Ok t → is_ping t = false →
  extract_all Date_toISOString e (payloadOf body) = Ok x →
  missing_required x = false →
  upsertBody e (x_attendee x) (x_customFields x) = Ok upsert →
  fetch [] (ghlCall e "/contacts/upsert" "POST" upsert) = Responded st1 text1 →
  ok_status st1 = true →
  appointmentBody e (contactIdOf (parsedBody JSON_parse text1)) (x_startTime x)
    (x_endTime x) (VStr (x_title x)) (x_calendarId x) (x_userId x) = Ok appointment →
  fetch [ghlCall e "/contacts/upsert" "POST" upsert]
    (ghlCall e "/calendars/events/appointments" "POST" appointment)
  = Responded st2 text2 →
  ok_status st2 = true →
  handler e body
  = (reply 200 [("ok", VBool true);
                ("message", VStr "Synced to GoHighLevel");
                ("contactId", contactIdOf (parsedBody JSON_parse text1));
                ("appointmentId", opt (parsedBody JSON_parse text2) "id")],
     [ghlCall e "/contacts/upsert" "POST" upsert;
      ghlCall e "/calendars/events/appointments" "POST" appointment]).
Proof.
  intros Hc Ht Hp Hx Hm Hup Hf1 Hok1 Hap Hf2 Hok2.
  destruct (appointmentBody_contact _ _ _ _ _ _ _ _ Hap) as [cid Hcid].
  run_handler. rewrite Hc, Ht, Hp, Hx, Hm, Hup. cbn [negb].
  rewrite ghlRequest_eq, Hf1, Hok1, Hcid, Hap. cbn [app].
  by rewrite ghlRequest_eq, Hf2, Hok2.
Qed.

(** X13. When the CRM does not accept the upsert (a status outside 200
    to 299, or no answer at all), the request is answered 500 with the
    failure's message, the upsert is the only CRM call, and no appointment
    is attempted. *)
Theorem lunacal_upsert_failure (e : env) (body : value) (t : string) (x : extraction)
  (upsert : value) :
  configured e = true → triggerEventOf body = Ok t → is_ping t = false →
  extract_all Date_toISOString e (payloadOf body) = Ok x →
  missing_required x = false →
  upsertBody e (x_attendee x) (x_customFields x) = Ok upsert →
  (∀ (st : Z) (text : string),
     fetch [] (ghlCall e "/contacts/upsert" "POST" upsert) = Responded st text →
     ok_status st = false →
     handler e body
     = (reply 500 [("ok", VBool false);
                   ("message", VStr ("GHL API error " +:+ Str.of_Z st))],
        [ghlCall e "/contacts/upsert" "POST" upsert]))
  ∧ (∀ msg : string,
       fetch [] (ghlCall e "/contacts/upsert" "POST" upsert) = Rejected msg →
       handler e body
       = (reply 500 [("ok", VBool false); ("message", VStr msg)],
          [ghlCall e "/contacts/upsert" "POST" upsert])).
Proof.
  intros Hc Ht Hp Hx Hm Hup. split.
  - intros st text Hf Hok. run_handler. rewrite Hc, Ht, Hp, Hx, Hm, Hup. cbn [negb].
    by rewrite ghlRequest_eq, Hf, Hok.
  - intros msg Hf. run_handler. rewrite Hc, Ht, Hp, Hx, Hm, Hup. cbn [negb].
    by rewrite ghlRequest_eq, Hf.
Qed.

(** X14. When the upsert succeeds and the CRM then does not accept the
    appointment, the request is answered 500 with the failure's message
    after exactly the two calls: the contact stays upserted. *)
Theorem lunacal_appointment_failure (e : env) (body : value) (t : string)
  (x : extraction) (upsert appointment : value) (st1 : Z) (text1 : string) :
  configured e = true → triggerEventOf body = Ok t → is_ping t = false →
  extract_all Date_toISOString e (payloadOf body) = Ok x →
  missing_required x = false →
  upsertBody e (x_attendee x) (x_customFields x) = Ok upsert →
  fetch [] (ghlCall e "/contacts/upsert" "POST" upsert) = Responded st1 text1 →
  ok_status st1 = true →
  appointmentBody e (contactIdOf (parsedBody JSON_parse text1)) (x_startTime x)
    (x_endTime x) (VStr (x_title x)) (x_calendarId x) (x_userId x) = Ok appointment →
  (∀ (st : Z) (text : string),
     fetch [ghlCall e "/contacts/upsert" "POST" upsert]
       (ghlCall e "/calendars/events/appointments" "POST" appointment)
     = Responded st text →
     ok_status st = false →
     handler e body
     = (reply 500 [("ok", VBool false);
                   ("message", VStr ("GHL API error " +:+ Str.of_Z st))],
        [ghlCall e "/contacts/upsert" "POST" upsert;
         ghlCall e "/calendars/events/appointments" "POST" appointment]))
  ∧ (∀ msg : string,
       fetch [ghlCall e "/contacts/upsert" "POST" upsert]
         (ghlCall e "/calendars/events/appointments" "POST" appointment)
       = Rejected msg →
       handler e body
       = (reply 500 [("ok", VBool false); ("message", VStr msg)],
          [ghlCall e "/contacts/upsert" "POST" upsert;
           ghlCall e "/calendars/events/appointments" "POST" appointment])).
Proof.
  intros Hc Ht Hp Hx Hm Hup Hf1 Hok1 Hap.
  destruct (appointmentBody_contact _ _ _ _ _ _ _ _ Hap) as [cid Hcid].
  split.
  - intros st text Hf Hok. run_handler. rewrite Hc, Ht, Hp, Hx, Hm, Hup. cbn [negb].
    rewrite ghlRequest_eq, Hf1, Hok1, Hcid, Hap. cbn [app].
    by rewrite ghlRequest_eq, Hf, Hok.
  - intros msg Hf. run_handler. rewrite Hc, Ht, Hp, Hx, Hm, Hup. cbn [negb].
    rewrite ghlRequest_eq, Hf1, Hok1, Hcid, Hap. cbn [app].
    by rewrite ghlRequest_eq, Hf.
Qed.

End OutcomeProperties.

Lemma lunacal_status_and_calls_witness :
  status (fst (lunacal parse_braces sample_dates crm_empty_object
                 env_sample booking_without_email)) = 400
  ∧ snd (lunacal parse_braces sample_dates crm_empty_object
           env_sample booking_without_email) = [].
Proof.
  assert (status (fst (lunacal parse_braces sample_dates crm_empty_object
                         env_sample booking_without_email)) = 400) as H
    by (vm_compute; reflexivity).
  split; [exact H|].
  exact (proj1 (proj2 (lunacal_status_and_calls parse_braces sample_dates
                         crm_empty_object env_sample booking_without_email)) H).
Defined.

Lemma lunacal_syncs_witness :
  lunacal parse_ids sample_dates crm_with_ids env_sample booking_body
  = (reply 200 [("ok", VBool true);
                ("message", VStr "Synced to GoHighLevel");
                ("contactId", VStr "c_1");
                ("appointmentId", VStr "a_9")],
     [ghlCall env_sample "/contacts/upsert" "POST"
        (VObj [("locationId", VStr "loc_1"); ("name", VStr "Jo");
               ("email", VStr "jo@x.com"); ("customFields", VArr [])]);
      ghlCall env_sample "/calendars/events/appointments" "POST"
        (VObj [("locationId", VStr "loc_1"); ("calendarId", VStr "cal_1");
               ("contactId", VStr "c_1"); ("title", VStr "LunaCal Booking");
               ("startTime", VStr "2024-01-01T10:00:00.000Z");
               ("endTime", VStr "2024-01-01T10:30:00.000Z");
               ("ignoreFreeSlotValidation", VBool true);
               ("assignedUserId", VStr "user_7")])]).
Proof.
  eapply eq_trans.
  - eapply (lunacal_syncs parse_ids sample_dates crm_with_ids env_sample booking_body
              "BOOKING.CREATED").
    + reflexivity.
    + reflexivity.
    + reflexivity.
    + lazy. reflexivity.
    + reflexivity.
    + lazy. reflexivity.
    + reflexivity.
    + reflexivity.
    + lazy. reflexivity.
    + reflexivity.
    + reflexivity.
  - vm_compute. reflexivity.
Defined.

Lemma lunacal_upsert_failure_witness :
  lunacal parse_ids sample_dates crm_unprocessable env_sample booking_body
  = (reply 500 [("ok", VBool false); ("message", VStr "GHL API error 422")],
     [ghlCall env_sample "/contacts/upsert" "POST"
        (VObj [("locationId", VStr "loc_1"); ("name", VStr "Jo");
               ("email", VStr "jo@x.com"); ("customFields", VArr [])])]).
Proof.
  eapply eq_trans.
  - eapply (proj1 (lunacal_upsert_failure parse_ids sample_dates crm_unprocessable
                     env_sample booking_body "BOOKING.CREATED" _ _ _ _ _ _ _ _)).
    + reflexivity.
    + reflexivity.
  - vm_compute. reflexivity.
  Unshelve.
  all: try (lazy; reflexivity).
Defined.

Lemma lunacal_appointment_failure_witness :
  fst (lunacal parse_ids sample_dates crm_rejects_appointment env_sample booking_body)
  = reply 500 [("ok", VBool false); ("message", VStr "GHL API error 400")]
  ∧ List.map url (snd (lunacal parse_ids sample_dates crm_rejects_appointment
                         env_sample booking_body))
    = [upsert_url; appointments_url].
Proof.
  assert (lunacal parse_ids sample_dates crm_rejects_appointment env_sample booking_body
          = (reply 500 [("ok", VBool false); ("message", VStr "GHL API error 400")],
             snd (lunacal parse_ids sample_dates crm_rejects_appointment
                    env_sample booking_body))) as H.
  { eapply eq_trans.
    - eapply (proj1 (lunacal_appointment_failure parse_ids sample_dates
                       crm_rejects_appointment env_sample booking_body
                       "BOOKING.CREATED" _ _ _ _ _ _ _ _ _ _ _ _ _ _)).
      + reflexivity.
      + reflexivity.
    - vm_compute. reflexivity. }
  split; [by rewrite H | vm_compute; reflexivity].
  Unshelve.
  all: try (lazy; reflexivity).
Defined.

(** * The third copy *)

Lemma strict_equal_text_spec (v : value) (s : string) :
  strict_equal_text v s = true ↔ v = VStr s.
Proof.
  destruct v; cbn [strict_equal_text]; try (split; [done | discriminate]).
  rewrite String.eqb_eq. split; [by intros -> | by intros [= ->]].
Qed.

Lemma get_labelled (entry : value) (l : string) :
  opt entry "label" = VStr l → get entry "value" = Ok (member entry "value").
Proof.
  unfold opt, get. by destruct (nullish entry).
Qed.

Lemma V3_assign_matches_keys (label ghlKey : string) (entries : list value)
  (fields : list (string * value)) :
  NoDup fields.*1 →
  ∃ out : list (string * value),
    V3.assign_matches label ghlKey entries fields = Ok out
    ∧ NoDup out.*1
    ∧ ∀ x, x ∈ out.*1 → x = ghlKey ∨ x ∈ fields.*1.
Proof.
  revert fields. induction entries as [|entry entries IH]; intros fields Hnd.
  - exists fields. by auto.
  - cbn [V3.assign_matches].
    destruct (strict_equal_text (opt entry "label") label && _)%bool eqn:Hmatch.
    + apply andb_true_iff in Hmatch as [Hl _]. apply strict_equal_text_spec in Hl.
      rewrite (get_labelled _ _ Hl), bind_Ok.
      destruct (obj_set_keys fields ghlKey (member entry "value") Hnd)
        as (Hnd' & Hsub & _).
      destruct (IH _ Hnd') as (out & Hout & Hndo & Hsubo).
      exists out. split; [done|]. split; [done|].
      intros x Hx. destruct (Hsubo x Hx) as [-> | Hin]; [by left | by apply Hsub].
    + by apply IH.
Qed.

Lemma V3_map_fields_keys (fm : list (string * string)) (responses : value)
  (fields : list (string * value)) :
  NoDup fields.*1 →
  ∃ out : list (string * value),
    V3.map_fields fm responses fields = Ok out
    ∧ NoDup out.*1
    ∧ ∀ x, x ∈ out.*1 → x ∈ fields.*1 ∨ x ∈ fm.*2.
Proof.
  revert fields. induction fm as [|[label ghlKey] fm IH]; intros fields Hnd.
  - exists fields. by auto.
  - cbn [V3.map_fields].
    destruct (V3_assign_matches_keys label ghlKey (enum_values responses) fields Hnd)
      as (mid & -> & Hndm & Hsubm).
    rewrite bind_Ok. destruct (IH _ Hndm) as (out & -> & Hndo & Hsubo).
    exists out. split; [done|]. split; [done|].
    intros x Hx. cbn [fmap list_fmap snd].
    destruct (Hsubo x Hx) as [Hin | Hin].
    + destruct (Hsubm x Hin) as [-> | Hf]; [|by left].
      right. apply elem_of_cons. by left.
    + right. apply elem_of_cons. by right.
Qed.

(** X15. The field mapper of the third copy returns normally on every
    payload and every configuration; the keys of what it returns are
    pairwise distinct configured outbound keys. *)
Theorem V3_extractCustomFields_never_throws (e : env) (payload : value) :
  ∃ fields : list (string * value),
    V3.extractCustomFields e payload = Ok fields
    ∧ NoDup fields.*1
    ∧ ∀ k : string, k ∈ fields.*1 → k ∈ (V3.fieldMap e).*2.
Proof.
  unfold V3.extractCustomFields.
  destruct (V3_map_fields_keys (V3.fieldMap e)
              (or_ (opt payload "responses") (VObj [])) []) as (out & Hout & Hnd & Hsub);
    [constructor|].
  exists out. split; [done|]. split; [done|].
  intros k Hk. destruct (Hsub k Hk) as [Hin | Hin]; [|done].
  by apply elem_of_nil in Hin.
Qed.

Lemma upsertBody_email (e : env) (a : Attendee) (customFields : list (string * value))
  (body : value) :
  V3.upsertBody e a customFields = Ok body → truthy (email a) = true →
  ∃ s : string, toString (email a) = Ok s.
Proof.
  unfold V3.upsertBody, or_. intros H Hem. rewrite Hem in H.
  destruct (toString (if truthy (name a) then _ else _)); [rewrite bind_Ok in H | done].
  destruct (toString (email a)) as [s|]; [by eexists | done].
Qed.

Section ThirdCopy.

Variable JSON_parse : string → option value.
Variable Date_toISOString : value → option string.
Variable fetch : list outbound → outbound → fetch_outcome.

Ltac run_third :=
  unfold V3.lunacal, V3.lunacal_try, V3.upsertContact, V3.createAppointment,
    of_result, of_M, raise, mbind, M_bind, T_bind, mret, M_ret, T_ret, lift.

(** X16. In the third copy a successful upsert answer without contact id
    stops the request: it is answered 500 with the message
    [Failed to get contactId from GHL], the upsert is the only CRM call,
    and no appointment is created. *)
Theorem V3_missing_contact_id_stops (e : env) (body : value) (t : string)
  (x : V3.extraction) (upsert : value) (st : Z) (text : string) :
  configured e = true → triggerEventOf body = Ok t → is_ping t = false →
  V3.extract_all Date_toISOString e (payloadOf body) = Ok x →
  V3.missing_required x = false →
  V3.upsertBody e (V3.x_attendee x) (V3.x_customFields x) = Ok upsert →
  fetch [] (ghlCall e "/contacts/upsert" "POST" upsert) = Responded st text →
  ok_status st = true →
  truthy (contactIdOf (parsedBody JSON_parse text)) = false →
  V3.lunacal JSON_parse Date_toISOString fetch e body
  = (reply 500 [("ok", VBool false);
                ("message", VStr "Failed to get contactId from GHL")],
     [ghlCall e "/contacts/upsert" "POST" upsert]).
Proof.
  intros Hc Ht Hp Hx Hm Hup Hf Hok Hid.
  assert (truthy (email (V3.x_attendee x)) = true) as Hem.
  { unfold V3.missing_required in Hm. apply orb_false_iff in Hm as [Hm _].
    apply orb_false_iff in Hm as [Hm _]. apply orb_false_iff in Hm as [Hm _].
    by apply negb_false_iff in Hm. }
  destruct (upsertBody_email _ _ _ _ Hup Hem) as [s Hs].
  destruct (toString_falsy _ Hid) as [cid Hcid].
  run_third. rewrite Hc, Ht, Hp, Hx, Hm, Hs, Hup. cbn [negb].
  by rewrite ghlRequest_eq, Hf, Hok, Hcid, Hid.
Qed.

(** X17. In the third copy a configured request that is no PING never
    reaches the CRM without its required fields. When reading the fields
    of the payload throws, the request is answered 500 with the message of
    the exception; when the fields are read and the email, the start time,
    the end time or the calendar id is empty, it is answered 400 with the
    four values under [debug]. No CRM call is made in either case. *)
Theorem V3_missing_fields_are_reported (e : env) (body : value) (t : string) :
  configured e = true → triggerEventOf body = Ok t → is_ping t = false →
  (∀ err : exn,
     V3.extract_all Date_toISOString e (payloadOf body) = Throw err →
     V3.lunacal JSON_parse Date_toISOString fetch e body
     = (reply 500 [("ok", VBool false); ("message", VStr (exn_message err))], []))
  ∧ (∀ x : V3.extraction,
       V3.extract_all Date_toISOString e (payloadOf body) = Ok x →
       V3.missing_required x = true →
       V3.lunacal JSON_parse Date_toISOString fetch e body
       = (reply 400 [("ok", VBool false);
                     ("message", VStr "Missing required fields");
                     ("debug", VObj [("email", email (V3.x_attendee x));
                                     ("startTime", V3.x_startTime x);
                                     ("endTime", V3.x_endTime x);
                                     ("targetCalendarId", V3.x_calendarId x)])],
          [])).
Proof.
  intros Hc Ht Hp. split.
  - intros err Hx. run_third. by rewrite Hc, Ht, Hp, Hx.
  - intros x Hx Hm. run_third. by rewrite Hc, Ht, Hp, Hx, Hm.
Qed.

End ThirdCopy.

Lemma V3_missing_contact_id_stops_witness :
  V3.lunacal parse_braces sample_dates crm_empty_object env_sample booking_body
  = (reply 500 [("ok", VBool false);
                ("message", VStr "Failed to get contactId from GHL")],
     [ghlCall env_sample "/contacts/upsert" "POST"
        (VObj [("locationId", VStr "loc_1"); ("name", VStr "Jo");
               ("email", VStr "jo@x.com"); ("customFields", VArr [])])]).
Proof.
  eapply eq_trans.
  - eapply (V3_missing_contact_id_stops parse_braces sample_dates crm_empty_object
              env_sample booking_body "BOOKING.CREATED").
    + reflexivity.
    + reflexivity.
    + reflexivity.
    + lazy. reflexivity.
    + reflexivity.
    + lazy. reflexivity.
    + reflexivity.
    + reflexivity.
    + reflexivity.
  - vm_compute. reflexivity.
Defined.

Lemma V3_missing_fields_are_reported_witness :
  V3.lunacal parse_braces sample_dates crm_empty_object env_sample booking_without_email
  = (reply 400 [("ok", VBool false);
                ("message", VStr "Missing required fields");
                ("debug", VObj [("email", VNull);
                                ("startTime", VStr "2024-01-01T10:00:00.000Z");
                                ("endTime", VStr "2024-01-01T10:30:00.000Z");
                                ("targetCalendarId", VStr "cal_1")])],
     [])
  ∧ ∃ msg : string,
      V3.lunacal parse_braces sample_dates crm_empty_object env_sample
        booking_numeric_organizer
      = (reply 500 [("ok", VBool false); ("message", VStr msg)], []).
Proof.
  split.
  - eapply eq_trans.
    + eapply (proj2 (V3_missing_fields_are_reported parse_braces sample_dates
                       crm_empty_object env_sample booking_without_email
                       "BOOKING.CREATED" eq_refl eq_refl eq_refl)).
      * lazy. reflexivity.
      * reflexivity.
    + vm_compute. reflexivity.
  - eexists.
    eapply (proj1 (V3_missing_fields_are_reported parse_braces sample_dates
                     crm_empty_object env_sample booking_numeric_organizer
                     "BOOKING.CREATED" eq_refl eq_refl eq_refl)).
    lazy. reflexivity.
Defined.

(** * The second copy *)

Lemma includes_upper_spec (n t : string) :
  Str.toUpperCase n = n →
  Str.includes (Str.toUpperCase t) n = true ↔ occurs_in_ignoring_case n t.
Proof.
  intros Hn. unfold occurs_in_ignoring_case. rewrite includes_spec. unfold occurs_in.
  rewrite Hn. unfold Str.toUpperCase. split.
  - intros (pre & post & H).
    apply str_map_split in H as (s1 & s23 & -> & H1 & H23).
    apply str_map_split in H23 as (u & s3 & -> & Hu & H3).
    by exists s1, u, s3.
  - intros (pre & u & post & -> & Hu).
    exists (Str.map Str.upper_char pre), (Str.map Str.upper_char post).
    by rewrite !str_map_app, Hu.
Qed.

Lemma toString_text_or_empty (t : string) :
  toString (or_ (VStr t) (VStr EmptyString)) = Ok t.
Proof.
  unfold or_. cbn [truthy]. destruct (String.eqb t EmptyString) eqn:H; [|done].
  apply String.eqb_eq in H. by subst t.
Qed.

(** A conversion to a string fails with a [TypeError] only. *)
Lemma toString_throws_TypeError (v : value) (err : exn) :
  toString v = Throw err → ∃ m : string, err = TypeError m.
Proof.
  revert v err. fix IH 1. intros v err.
  destruct v as [ | | [] | n | s | xs | props | [|nm]];
    cbn [toString]; try discriminate.
  - set (elems := fix elems (l : list value) : result (list string) := _).
    assert (∀ l, (∀ x, In x l → ∀ err, toString x = Throw err → ∃ m, err = TypeError m) →
                 elems l = Throw err → ∃ m, err = TypeError m) as Hel.
    { induction l as [|x l IHl]; intros Hl; cbn [elems]; [discriminate|].
      destruct (nullish x) eqn:Hn.
      - destruct (elems l) eqn:He; [discriminate|]. intros [= <-].
        apply IHl; [|done]. intros y Hy. apply Hl. by right.
      - destruct (toString x) eqn:Hx.
        + destruct (elems l) eqn:He; [discriminate|]. intros [= <-].
          apply IHl; [|done]. intros y Hy. apply Hl. by right.
        + intros [= <-]. apply (Hl x); [by left | done]. }
    destruct (elems xs) eqn:He; [discriminate|]. intros [= <-].
    apply (Hel xs); [|done]. clear He Hel.
    induction xs as [|x xs IHxs]; intros y Hy; [destruct Hy|].
    destruct Hy as [<- | Hy]; [apply IH | by apply IHxs].
  - destruct (has_own props "toString"); [|discriminate]. intros [= <-]. by eexists.
Qed.

(** The attendee extractor catches whatever its body throws. *)
Lemma extractAttendee_returns (payload : value) :
  ∃ a : Attendee, extractAttendee payload = Ok a.
Proof.
  unfold extractAttendee, try_catch.
  destruct (_ ≫= _) as [a|err]; by eexists.
Qed.

Lemma V2_shouldCreateAppointment_helper (t : string) :
  (V2.shouldCreateAppointment (VStr t) = true → booking_event t)
  ∧ (booking_event t → V2.shouldCreateAppointment (VStr t) = true).
Proof.
  unfold V2.shouldCreateAppointment, booking_event.
  rewrite toString_text_or_empty, !orb_true_iff.
  rewrite !includes_upper_spec by reflexivity. tauto.
Qed.

(** X18. [shouldCreateAppointment] accepts a trigger event made of ASCII
    characters exactly when it contains CREATED, BOOKED or RESCHEDULED in
    any letter case; null and undefined are refused. *)
Theorem V2_shouldCreateAppointment_spec (t : string) :
  (ascii_text t = true →
   (V2.shouldCreateAppointment (VStr t) = true ↔ booking_event t))
  ∧ V2.shouldCreateAppointment VNull = false
  ∧ V2.shouldCreateAppointment VUndef = false.
Proof.
  split; [|split; reflexivity].
  intros _. split; apply V2_shouldCreateAppointment_helper.
Qed.

Lemma V2_shouldCreateAppointment_spec_witness :
  ascii_text "booking.rescheduled" = true
  ∧ V2.shouldCreateAppointment (VStr "booking.rescheduled") = true
  ∧ booking_event "booking.rescheduled".
Proof.
  split; [reflexivity | split; [reflexivity|]].
  apply (proj1 (proj1 (V2_shouldCreateAppointment_spec "booking.rescheduled") eq_refl)).
  reflexivity.
Defined.

Section SecondCopy.

Variable JSON_parse : string → option value.
Variable Date_toISOString : value → option string.
Variable fetch : option (list outbound → outbound → fetch_outcome).

Abbreviation handler2 := (V2.lunacal JSON_parse Date_toISOString fetch).

Ltac run_second :=
  unfold V2.lunacal, V2.lunacal_try, V2.upsertContact, V2.createAppointment,
    V2.ghlRequest, of_result, of_M, raise, mbind, M_bind, T_bind, mret, M_ret, T_ret,
    lift.

Lemma V2_not_booking_event (t : string) :
  ¬ booking_event t → V2.shouldCreateAppointment (VStr t) = false.
Proof.
  intros H. apply not_true_is_false. intros Hs.
  by apply (proj1 (V2_shouldCreateAppointment_helper t)) in Hs.
Qed.

(** X19. The second copy acts on booking events only: a request whose
    trigger event is made of ASCII characters and contains none of
    CREATED, BOOKED and RESCHEDULED in any letter case never causes a CRM
    call, and when it is complete and no PING it is answered 200 with a
    message naming the event. *)
Theorem V2_other_events_are_ignored (e : env) (body : value) (t : string) :
  triggerEventOf body = Ok t →
  ascii_text t = true →
  ¬ booking_event t →
  snd (handler2 e body) = []
  ∧ ∀ x : V2.extraction,
      V2.configured e = true →
      V2.extract_all Date_toISOString (payloadOf body) = Ok x →
      is_ping t = false →
      V2.missing_required x = false →
      fst (handler2 e body)
      = reply 200 [("ok", VBool true);
                   ("message", VStr ("Received " +:+ t +:+ ". No action taken."))].
Proof.
  intros Ht _ Hev. pose proof (V2_not_booking_event _ Hev) as Hs. split.
  - run_second. destruct (V2.configured e); cbn [negb]; [|done]. rewrite Ht.
    destruct (V2.extract_all _ _) as [x|]; [|done].
    destruct (is_ping t); [done|]. destruct (V2.missing_required x); [done|].
    by rewrite Hs.
  - intros x Hc Hx Hp Hm. run_second. by rewrite Hc, Ht, Hx, Hp, Hm, Hs.
Qed.

Lemma V2_upsertBody_email (e : env) (a : Attendee) (body : value) :
  V2.upsertBody e a = Ok body → truthy (email a) = true →
  ∃ s : string, toString (email a) = Ok s.
Proof.
  unfold V2.upsertBody, or_. intros H Hem. rewrite Hem in H.
  destruct (toString (if truthy (name a) then _ else _)); [rewrite bind_Ok in H | done].
  destruct (toString (email a)) as [s|]; [by eexists | done].
Qed.

Lemma V2_email_required (x : V2.extraction) :
  V2.missing_required x = false → truthy (email (V2.x_attendee x)) = true.
Proof.
  unfold V2.missing_required. intros Hm.
  apply orb_false_iff in Hm as [Hm _]. apply orb_false_iff in Hm as [Hm _].
  by apply negb_false_iff in Hm.
Qed.

Lemma V2_configured_credentials (e : env) :
  V2.configured e = true → V2.credentials e = true.
Proof. unfold V2.configured. intros H. by apply andb_true_iff in H as [H _]. Qed.

(** X20. The second copy hands the status of the CRM on: when the upsert
    is answered with a status outside 200 to 299, the request is answered
    with that same status and the message [GHL API error <status>], after
    this one CRM call. *)
Theorem V2_upstream_status_is_propagated (e : env) (body : value) (t : string)
  (x : V2.extraction) (upsert : value)
  (f : list outbound → outbound → fetch_outcome) (st : Z) (text : string) :
  fetch = Some f →
  V2.configured e = true → triggerEventOf body = Ok t →
  V2.extract_all Date_toISOString (payloadOf body) = Ok x →
  is_ping t = false → V2.missing_required x = false → booking_event t →
  V2.upsertBody e (V2.x_attendee x) = Ok upsert →
  f [] (ghlCall e "/contacts/upsert" "POST" upsert) = Responded st text →
  ok_status st = false → st ≠ 0 →
  handler2 e body
  = ({| status := st;
        json := VObj [("ok", VBool false);
                      ("message", VStr ("GHL API error " +:+ Str.of_Z st))] |},
     [ghlCall e "/contacts/upsert" "POST" upsert]).
Proof.
  intros Hfetch Hc Ht Hx Hp Hm Hev Hup Hf Hok Hst.
  apply V2_shouldCreateAppointment_helper in Hev.
  destruct (V2_upsertBody_email _ _ _ Hup (V2_email_required _ Hm)) as [s Hs].
  run_second.
  rewrite Hc, Ht, Hx, Hp, Hm, Hev, Hs, (V2_configured_credentials _ Hc), Hup, Hfetch.
  cbn [negb]. rewrite ghlRequest_eq, Hf, Hok. cbn [app].
  unfold V2.status_of, thrown_status, or_. cbn [truthy].
  apply Z.eqb_neq in Hst. by rewrite Hst.
Qed.

(** X21. In the second copy a successful upsert answer without contact id
    makes [upsertContact] throw: the request is answered 500 with the
    message [No contactId in response], the upsert is the only CRM call,
    and no appointment is created. *)
Theorem V2_missing_contact_id_stops (e : env) (body : value) (t : string)
  (x : V2.extraction) (upsert : value)
  (f : list outbound → outbound → fetch_outcome) (st : Z) (text : string) :
  fetch = Some f →
  V2.configured e = true → triggerEventOf body = Ok t →
  V2.extract_all Date_toISOString (payloadOf body) = Ok x →
  is_ping t = false → V2.missing_required x = false → booking_event t →
  V2.upsertBody e (V2.x_attendee x) = Ok upsert →
  f [] (ghlCall e "/contacts/upsert" "POST" upsert) = Responded st text →
  ok_status st = true →
  truthy (contactIdOf (parsedBody JSON_parse text)) = false →
  handler2 e body
  = (reply 500 [("ok", VBool false); ("message", VStr "No contactId in response")],
     [ghlCall e "/contacts/upsert" "POST" upsert]).
Proof.
  intros Hfetch Hc Ht Hx Hp Hm Hev Hup Hf Hok Hid.
  apply V2_shouldCreateAppointment_helper in Hev.
  destruct (V2_upsertBody_email _ _ _ Hup (V2_email_required _ Hm)) as [s Hs].
  run_second.
  rewrite Hc, Ht, Hx, Hp, Hm, Hev, Hs, (V2_configured_credentials _ Hc), Hup, Hfetch.
  cbn [negb]. by rewrite ghlRequest_eq, Hf, Hok, Hid.
Qed.

(** X22. In the second copy a configured request never reaches the CRM
    without its required fields, whatever its event type. When reading
    the fields of the payload throws, the request is answered 500 with the
    message of the exception; when the fields are read, the request is no
    PING and the email, the start time or the end time is empty, it is
    answered 400 with the three values under [debug]. No CRM call is made
    in either case. *)
Theorem V2_missing_fields_are_reported (e : env) (body : value) (t : string) :
  V2.configured e = true → triggerEventOf body = Ok t →
  (∀ err : exn,
     V2.extract_all Date_toISOString (payloadOf body) = Throw err →
     handler2 e body
     = (reply 500 [("ok", VBool false); ("message", VStr (exn_message err))], []))
  ∧ (∀ x : V2.extraction,
       V2.extract_all Date_toISOString (payloadOf body) = Ok x →
       is_ping t = false → V2.missing_required x = true →
       handler2 e body
       = (reply 400 [("ok", VBool false);
                     ("message", VStr "Missing required fields");
                     ("debug", VObj [("email", email (V2.x_attendee x));
                                     ("startTime", V2.x_startTime x);
                                     ("endTime", V2.x_endTime x)])],
          [])).
Proof.
  intros Hc Ht. split.
  - intros err Hx.
    assert (∃ m : string, err = TypeError m) as [m ->].
    { unfold V2.extract_all in Hx.
      destruct (toString _) as [title|err'] eqn:Htitle.
      - rewrite bind_Ok in Hx.
        destruct (extractAttendee_returns (payloadOf body)) as [a Ha].
        rewrite Ha, bind_Ok in Hx. discriminate Hx.
      - injection Hx as <-. by apply toString_throws_TypeError in Htitle. }
    run_second. by rewrite Hc, Ht, Hx.
  - intros x Hx Hp Hm. run_second. by rewrite Hc, Ht, Hx, Hp, Hm.
Qed.

End SecondCopy.

Lemma V2_other_events_are_ignored_witness :
  triggerEventOf cancellation_body = Ok "BOOKING.CANCELLED"
  ∧ ascii_text "BOOKING.CANCELLED" = true
  ∧ ¬ booking_event "BOOKING.CANCELLED"
  ∧ V2.lunacal parse_braces sample_dates (Some crm_empty_object) env_sample
      cancellation_body
    = (reply 200 [("ok", VBool true);
                  ("message", VStr "Received BOOKING.CANCELLED. No action taken.")],
       []).
Proof.
  assert (triggerEventOf cancellation_body = Ok "BOOKING.CANCELLED") as Ht by reflexivity.
  assert (¬ booking_event "BOOKING.CANCELLED") as Hev.
  { intros Hev. apply V2_shouldCreateAppointment_helper in Hev.
    vm_compute in Hev. discriminate Hev. }
  split; [exact Ht | split; [reflexivity | split; [exact Hev|]]].
  destruct (V2_other_events_are_ignored parse_braces sample_dates (Some crm_empty_object)
              env_sample cancellation_body _ Ht eq_refl Hev) as [Hcalls Hreply].
  rewrite (surjective_pairing (V2.lunacal _ _ _ _ _)), Hcalls.
  erewrite Hreply; [reflexivity | reflexivity | lazy; reflexivity
                   | reflexivity | reflexivity].
Defined.

Lemma V2_upstream_status_is_propagated_witness :
  V2.lunacal parse_braces sample_dates (Some crm_unprocessable) env_sample booking_body
  = ({| status := 422;
        json := VObj [("ok", VBool false); ("message", VStr "GHL API error 422")] |},
     [ghlCall env_sample "/contacts/upsert" "POST"
        (VObj [("locationId", VStr "loc_1"); ("name", VStr "Jo");
               ("email", VStr "jo@x.com")])]).
Proof.
  eapply eq_trans.
  - eapply (V2_upstream_status_is_propagated parse_braces sample_dates
              (Some crm_unprocessable) env_sample booking_body "BOOKING.CREATED").
    + reflexivity.
    + reflexivity.
    + reflexivity.
    + lazy. reflexivity.
    + reflexivity.
    + reflexivity.
    + left. exists "BOOKING.", "CREATED", EmptyString. split; reflexivity.
    + lazy. reflexivity.
    + reflexivity.
    + reflexivity.
    + discriminate.
  - vm_compute. reflexivity.
Defined.

Lemma V2_missing_contact_id_stops_witness :
  V2.lunacal parse_braces sample_dates (Some crm_empty_object) env_sample booking_body
  = (reply 500 [("ok", VBool false); ("message", VStr "No contactId in response")],
     [ghlCall env_sample "/contacts/upsert" "POST"
        (VObj [("locationId", VStr "loc_1"); ("name", VStr "Jo");
               ("email", VStr "jo@x.com")])]).
Proof.
  eapply eq_trans.
  - eapply (V2_missing_contact_id_stops parse_braces sample_dates
              (Some crm_empty_object) env_sample booking_body "BOOKING.CREATED").
    + reflexivity.
    + reflexivity.
    + reflexivity.
    + lazy. reflexivity.
    + reflexivity.
    + reflexivity.
    + left. exists "BOOKING.", "CREATED", EmptyString. split; reflexivity.
    + lazy. reflexivity.
    + reflexivity.
    + reflexivity.
    + reflexivity.
  - vm_compute. reflexivity.
Defined.

Lemma V2_missing_fields_are_reported_witness :
  V2.lunacal parse_braces sample_dates (Some crm_empty_object) env_sample
    booking_without_email
  = (reply 400 [("ok", VBool false);
                ("message", VStr "Missing required fields");
                ("debug", VObj [("email", VNull);
                                ("startTime", VStr "2024-01-01T10:00:00.000Z");
                                ("endTime", VStr "2024-01-01T10:30:00.000Z")])],
     [])
  ∧ ∃ msg : string,
      V2.lunacal parse_braces sample_dates (Some crm_empty_object) env_sample
        booking_object_title
      = (reply 500 [("ok", VBool false); ("message", VStr msg)], []).
Proof.
  split.
  - eapply eq_trans.
    + eapply (proj2 (V2_missing_fields_are_reported parse_braces sample_dates
                       (Some crm_empty_object) env_sample booking_without_email
                       "BOOKING.CREATED" eq_refl eq_refl)).
      * lazy. reflexivity.
      * reflexivity.
      * reflexivity.
    + vm_compute. reflexivity.
  - eexists.
    eapply (proj1 (V2_missing_fields_are_reported parse_braces sample_dates
                     (Some crm_empty_object) env_sample booking_object_title
                     "BOOKING.CREATED" eq_refl eq_refl)).
    lazy. reflexivity.
Defined.

(** * Sanity checks *)

Example split_ex : Str.split "," "a,b," = ["a"; "b"; EmptyString].
Proof. reflexivity. Qed.
Example trim_ex : Str.trim "  CEO / Founder  " = "CEO / Founder".
Proof. reflexivity. Qed.
Example ofz_ex : (Str.of_Z 0, Str.of_Z (-12), Str.of_Z 305) = ("0", "-12", "305").
Proof. reflexivity. Qed.
Example collapse_ex : Str.collapse_ws " a  b   c " = " a b c ".
Proof. reflexivity. Qed.
Example inc_ex : Str.includes (Str.toUpperCase "booking.ping!") "PING" = true.
Proof. reflexivity. Qed.
Example idx_ex : (array_index "0", array_index "12", array_index "012", array_index "a1")
  = (Some 0, Some 12, None, None).
Proof. reflexivity. Qed.
Example tostr_ex :
  toString (VArr [VStr "pi"; VNull; VArr [VNum 3; VBool true]]) = Ok "pi,,3,true".
Proof. reflexivity. Qed.
Example objset_ex :
  obj_set (obj_set (obj_set [] "b" VNull) "2" VNull) "1" VNull
  = [("1", VNull); ("2", VNull); ("b", VNull)].
Proof. reflexivity. Qed.
Example fieldMap_ex :
  fieldMap {| GHL_PRIVATE_TOKEN := None; GHL_LOCATION_ID := None; GHL_API_VERSION := EmptyString;
              GHL_CALENDAR_ID := None; CALENDAR_MAPPING := EmptyString;
              CUSTOM_FIELD_MAPPING := "What's your role: contact.role ,Budget:abc123" |}
  = [("what's your role", "contact.role"); ("budget", "abc123")].
Proof. reflexivity. Qed.
Example dropdown_ex :
  normalizeDropdownValue (VStr "  CEO/Founder ") = Ok (VStr "CEO / Founder").
Proof. reflexivity. Qed.
Example label_ex : normalizeLabel "What's   Your Role?" = "whats your role".
Proof. reflexivity. Qed.
